(** * GitHub-Scraper: the rate-limited, paginated, concurrent fetch engine

    A shallow embedding of [main.ipynb]: the credential check
    ([load_access_tokens]), the paginated search collector
    ([scrape_github_repositories]), the row mapping of
    [save_repositories_to_csv], the identifier extraction of
    [analyze_users_and_organizations], the two detail fetchers and the
    thread-pool stages of [main].

    Conventions of the embedding.
    - The outside world (the HTTP server, the clock, the files written by
      pandas) is a state of an abstract type threaded through every call;
      [requests.get], [time.time], [time.sleep], [DataFrame.to_csv] and
      [pd.read_csv] are operations on it, taken as section variables.
    - Python exceptions are values of [exn]; a function that can let one
      escape returns a sum, a loop body returns a [signal].
    - [time.time()] is a float; clock readings and durations are rationals
      and the arithmetic on them is exact and unbounded: [time.sleep] takes
      every duration, and the [OverflowError] of a wait beyond the range of
      the platform timer, or of a reset time beyond the floats, is outside
      the model.
    - [pd.DataFrame(records).fillna('N/A')] depends on the pandas that
      runs: from pandas 3 on a string is refused by a numeric column. The
      section variable [pandas_strict] tells which behaviour applies, and
      every statement holds for both.
    - Calls to [logger] do not influence any result and are left out.
    - What the program does to the outside is recorded as a list of
      [event]s, in the order it happens. *)

From Stdlib Require Import ZArith QArith Qminmax Lia Lqa.
From stdpp Require Import base list strings gmap.

Local Open Scope string_scope.
Local Open Scope list_scope.
Local Open Scope Z_scope.

(** ** JSON values and Python dictionaries *)

(** A decoded JSON document. Objects are Python dicts: item lists in
    insertion order, looked up by key. Numbers are integers. *)
#[warnings="-register-all"]
Inductive json : Type :=
| JNull
| JBool (b : bool)
| JInt (z : Z)
| JStr (s : string)
| JArr (xs : list json)
| JObj (kvs : list (string * json)).

(** A Python [dict] with string keys. *)
Abbreviation dict := (list (string * json)).

Fixpoint dict_lookup (d : dict) (key : string) : option json :=
  match d with
  | [] => None
  | (k, v) :: d' => if String.eqb k key then Some v else dict_lookup d' key
  end.

(** [d.get(key, dflt)] *)
Definition dict_get (d : dict) (key : string) (dflt : json) : json :=
  match dict_lookup d key with
  | Some v => v
  | None => dflt
  end.

(** Python truthiness: [if items:]. *)
Definition truthy (j : json) : bool :=
  match j with
  | JNull => false
  | JBool b => b
  | JInt z => negb (z =? 0)
  | JStr s => negb (String.eqb s EmptyString)
  | JArr xs => match xs with [] => false | _ => true end
  | JObj kvs => match kvs with [] => false | _ => true end
  end.

Inductive exn : Type :=
| RequestException
| HTTPError
| JSONDecodeError
| ValueError
| AttributeError
| TypeError
| KeyError
| FileNotFoundError.

(** [except requests.exceptions.RequestException] also catches its
    subclasses [HTTPError] and [requests.exceptions.JSONDecodeError]. *)
Definition is_request_exception (e : exn) : bool :=
  match e with
  | RequestException | HTTPError | JSONDecodeError => true
  | _ => false
  end.

(** [lst.extend(x)]: a list gives its elements, a string its characters,
    a dict its keys; anything else is not iterable. *)
Definition list_extend (lst : list json) (x : json) : exn + list json :=
  match x with
  | JArr xs => inr (lst ++ xs)
  | JStr s =>
      inr (lst ++ map (fun c => JStr (String c EmptyString))
                      (String.list_ascii_of_string s))
  | JObj kvs => inr (lst ++ map (fun kv => JStr (fst kv)) kvs)
  | JNull | JBool _ | JInt _ => inl TypeError
  end.

(** [range(lo, hi)] *)
Definition py_range (lo hi : Z) : list Z :=
  map (fun i => lo + Z.of_nat i) (seq 0 (Z.to_nat (hi - lo))).

(** ** The HTTP boundary *)

(** A response header as [int(...)] sees it: not sent, a text that [int]
    parses, or a text on which [int] raises [ValueError]. *)
Inductive header_value : Type :=
| Absent
| Numeric (z : Z)
| Malformed.

(** [int(response.headers.get(name, 0))] *)
Definition int_header (h : header_value) : exn + Z :=
  match h with
  | Absent => inr 0
  | Numeric z => inr z
  | Malformed => inl ValueError
  end.

Record rate_headers : Type := {
  x_ratelimit_remaining : header_value;
  x_ratelimit_reset : header_value
}.

(** [body] is [None] when the payload is not JSON. *)
Record response : Type := {
  status_code : Z;
  headers : rate_headers;
  body : option json
}.

Record request : Type := {
  url : string;
  authorization : string;
  params : dict
}.

(** What [requests.get] does: it raises a [RequestException] (no
    connection, timeout, ...) or returns a response. *)
Inductive reply : Type :=
| ConnectionFailed
| Reply (r : response).

(** [response.raise_for_status()] raises [HTTPError] for 4xx and 5xx. *)
Definition raise_for_status (r : response) : exn + unit :=
  if (400 <=? status_code r) && (status_code r <? 600) then inl HTTPError
  else inr tt.

(** [response.json()]; the [JSONDecodeError] it raises is the one of
    [requests.exceptions], a subclass of [RequestException]. *)
Definition response_json (r : response) : exn + json :=
  match body r with
  | Some j => inr j
  | None => inl JSONDecodeError
  end.

(** [obj.get(key, dflt)] on a decoded document: only a dict has [get]. *)
Definition json_get (obj : json) (key : string) (dflt : json) : exn + json :=
  match obj with
  | JObj d => inr (dict_get d key dflt)
  | _ => inl AttributeError
  end.

Inductive event : Type :=
| EvGet (rq : request) (rp : reply)
| EvTime (t : Q)
| EvSleep (d : Q).

(** How one pass through a loop body ends. *)
Inductive signal : Type :=
| Next
| Break
| Raise (e : exn).

(** The wait of the rate-limit branch:
    [max(reset_time - time.time() + 1, 0)]. *)
Definition sleep_duration (reset_time : Z) (now : Q) : Q :=
  (inject_Z reset_time - now + 1)%Q.

Definition quota_wait (reset_time : Z) (now : Q) : Q :=
  Qmax (sleep_duration reset_time now) 0%Q.

Definition search_url : string := "https://api.github.com/search/repositories".

Definition search_request (access_token query : string) (page : Z) : request :=
  {| url := search_url;
     authorization := "token " +:+ access_token;
     params := [("q", JStr query); ("per_page", JInt 100); ("page", JInt page)] |}.

(** ** Credentials *)

(** [not token] for the result of [os.getenv]: unset or empty. *)
Definition not_token (t : option string) : bool :=
  match t with
  | None => true
  | Some v => String.eqb v EmptyString
  end.

(** [environ] is the process environment after [dotenv.load_dotenv()]. *)
Definition load_access_tokens (environ : gmap string string)
  : exn + (string * string) :=
  let access_token_1 := environ !! "token_1" in
  let access_token_2 := environ !! "token_2" in
  if not_token access_token_1 || not_token access_token_2 then inl ValueError
  else
    match access_token_1, access_token_2 with
    | Some t1, Some t2 => inr (t1, t2)
    | _, _ => inl ValueError
    end.

(** ** Rows of the repository table *)

Definition NA : json := JStr "N/A".

(** [repo.get('owner', {}).get(field, 'N/A')] *)
Definition owner_get (repo : dict) (field : string) : exn + json :=
  json_get (dict_get repo "owner" (JObj [])) field NA.

Fixpoint join (sep : string) (parts : list string) : string :=
  match parts with
  | [] => EmptyString
  | [x] => x
  | x :: rest => x +:+ sep +:+ join sep rest
  end.

Fixpoint all_strings (xs : list json) : exn + list string :=
  match xs with
  | [] => inr []
  | JStr s :: rest =>
      match all_strings rest with
      | inr l => inr (s :: l)
      | inl e => inl e
      end
  | _ :: _ => inl TypeError
  end.

(** [', '.join(x)]: [x] must be an iterable of strings. *)
Definition join_topics (x : json) : exn + json :=
  match x with
  | JArr xs =>
      match all_strings xs with
      | inr l => inr (JStr (join ", " l))
      | inl e => inl e
      end
  | JStr s =>
      inr (JStr (join ", " (map (fun c => String c EmptyString)
                                (String.list_ascii_of_string s))))
  | JObj kvs => inr (JStr (join ", " (map fst kvs)))
  | JNull | JBool _ | JInt _ => inl TypeError
  end.

(** The dict built for one [repo] in [save_repositories_to_csv]. *)
Definition repository_record (repo : json) : exn + dict :=
  match repo with
  | JObj d =>
      match owner_get d "login", owner_get d "html_url", owner_get d "type",
            join_topics (dict_get d "topics" (JArr [])) with
      | inr login, inr html_url, inr type, inr topics =>
          inr [ ("Repository Name", dict_get d "name" NA);
                ("Owner Username", login);
                ("Owner Profile URL", html_url);
                ("Owner Type", type);
                ("Description", dict_get d "description" NA);
                ("Created Date", dict_get d "created_at" NA);
                ("Updated Date", dict_get d "updated_at" NA);
                ("Last Pushed Date", dict_get d "pushed_at" NA);
                ("Repository Size (KB)", dict_get d "size" NA);
                ("Stars Count", dict_get d "stargazers_count" (JInt 0));
                ("Watchers Count", dict_get d "watchers_count" (JInt 0));
                ("Primary Language", dict_get d "language" NA);
                ("Forks Count", dict_get d "forks_count" (JInt 0));
                ("Open Issues Count", dict_get d "open_issues_count" (JInt 0));
                ("Topics", topics);
                ("Default Branch", dict_get d "default_branch" NA) ]
      | inl e, _, _, _ => inl e
      | _, inl e, _, _ => inl e
      | _, _, inl e, _ => inl e
      | _, _, _, inl e => inl e
      end
  | _ => inl AttributeError
  end.

(** The list comprehension over [repositories]. *)
Fixpoint repository_records (repositories : list json) : exn + list dict :=
  match repositories with
  | [] => inr []
  | repo :: rest =>
      match repository_record repo with
      | inl e => inl e
      | inr row =>
          match repository_records rest with
          | inl e => inl e
          | inr rows => inr (row :: rows)
          end
      end
  end.

(** ** Detail records *)

Definition user_info (user_data : dict) : dict :=
  [ ("Username", dict_get user_data "login" NA);
    ("User ID", dict_get user_data "id" NA);
    ("Profile URL", dict_get user_data "html_url" NA);
    ("Name", dict_get user_data "name" NA);
    ("Company", dict_get user_data "company" NA);
    ("Location", dict_get user_data "location" NA);
    ("Bio", dict_get user_data "bio" NA);
    ("Blog", dict_get user_data "blog" NA);
    ("Twitter Username", dict_get user_data "twitter_username" NA);
    ("Email", dict_get user_data "email" NA);
    ("Public Repos", dict_get user_data "public_repos" (JInt 0));
    ("Public Gists", dict_get user_data "public_gists" (JInt 0));
    ("Followers", dict_get user_data "followers" (JInt 0));
    ("Following", dict_get user_data "following" (JInt 0));
    ("Account Created", dict_get user_data "created_at" NA);
    ("Last Updated", dict_get user_data "updated_at" NA) ].

Definition org_info (org_data : dict) : dict :=
  [ ("Organization Username", dict_get org_data "login" NA);
    ("Organization ID", dict_get org_data "id" NA);
    ("Profile URL", dict_get org_data "html_url" NA);
    ("Full Name", dict_get org_data "name" NA);
    ("Location", dict_get org_data "location" NA);
    ("Bio", dict_get org_data "bio" NA);
    ("Blog URL", dict_get org_data "blog" NA);
    ("Twitter Username", dict_get org_data "twitter_username" NA);
    ("Email", dict_get org_data "email" NA);
    ("Public Repositories", dict_get org_data "public_repos" (JInt 0));
    ("Public Gists", dict_get org_data "public_gists" (JInt 0));
    ("Followers Count", dict_get org_data "followers" (JInt 0));
    ("Following Count", dict_get org_data "following" (JInt 0));
    ("Account Created At", dict_get org_data "created_at" NA);
    ("Last Updated At", dict_get org_data "updated_at" NA) ].

Definition detail_request (name token : string) : request :=
  {| url := "https://api.github.com/users/" +:+ name;
     authorization := "token " +:+ token;
     params := [] |}.

(** The [try] block shared by [fetch_user_details] and
    [fetch_organization_data], up to the dict that is built from the
    decoded body. *)
Definition try_details (info : dict -> dict) (rp : reply) : exn + dict :=
  match rp with
  | ConnectionFailed => inl RequestException
  | Reply r =>
      match raise_for_status r with
      | inl e => inl e
      | inr _ =>
          match response_json r with
          | inl e => inl e
          | inr (JObj data) => inr (info data)
          | inr _ => inl AttributeError
          end
      end
  end.

(** The three handlers ([HTTPError], [RequestException], [Exception])
    log and fall through to [return None]. *)
Definition details_or_none (info : dict -> dict) (rp : reply) : option dict :=
  match try_details info rp with
  | inr d => Some d
  | inl _ => None
  end.

(** ** The owner columns read back from the repository table *)

(** A cell of a pandas column: missing, or a value given by its text. *)
Inductive cell : Type :=
| NaN
| Cell (s : string).

(** A DataFrame, by column. *)
Abbreviation data_frame := (list (string * list cell)).

Fixpoint df_column (df : data_frame) (name : string) : exn + list cell :=
  match df with
  | [] => inl KeyError
  | (c, col) :: df' => if String.eqb c name then inr col else df_column df' name
  end.

(** [df[df[by] == value][col]] on two columns of equal length. *)
Fixpoint select_where (by_col : list cell) (value : string) (col : list cell)
  : list cell :=
  match by_col, col with
  | b :: by_col', c :: col' =>
      match b with
      | Cell s =>
          if String.eqb s value then c :: select_where by_col' value col'
          else select_where by_col' value col'
      | NaN => select_where by_col' value col'
      end
  | _, _ => []
  end.

Definition dropna (col : list cell) : list string :=
  omap (fun c => match c with Cell s => Some s | NaN => None end) col.

(** [Series.unique()]: the distinct values in order of first appearance. *)
Fixpoint unique (l : list string) : list string :=
  match l with
  | [] => []
  | x :: l' => x :: filter (fun y => y <> x) (unique l')
  end.

(** [access_token_1 if i < 4000 else access_token_2] *)
Definition token_for (i : nat) (access_token_1 access_token_2 : string) : string :=
  if (i <? 4000)%nat then access_token_1 else access_token_2.

Definition search_queries : list string :=
  [ "front-end"; "back-end"; "full-stack"; "web-development";
    "mobile-development"; "data-science"; "machine-learning";
    "artificial-intelligence"; "cloud-computing"; "cybersecurity" ].

(** [df.fillna('N/A')] on the records handed to the DataFrame. *)
Definition fillna (records : list dict) : list dict :=
  map (map (fun kv => match snd kv with
                      | JNull => (fst kv, NA)
                      | _ => kv
                      end)) records.

(** The column names of [pd.DataFrame(records)], with repeats. *)
Definition frame_keys (records : list dict) : list string :=
  flat_map (map fst) records.

(** The column of [key]: a record without the key gives a missing value. *)
Definition frame_column (records : list dict) (key : string) : list json :=
  map (fun record => dict_get record key JNull) records.

(** A column of numbers with a missing value among them: pandas makes it
    a float column holding NaN. *)
Definition float_column_with_nan (col : list json) : bool :=
  forallb (fun j => match j with JInt _ | JNull => true | _ => false end) col
  && existsb (fun j => match j with JInt _ => true | _ => false end) col
  && existsb (fun j => match j with JNull => true | _ => false end) col.

(** [df = pd.DataFrame(records)] followed by
    [df.fillna('N/A', inplace=True)]. With [strict] (pandas 3) the string
    is refused by a float column that has a NaN to fill, and [fillna]
    raises [TypeError]; without it the column is turned into objects. *)
Definition DataFrame_fillna (strict : bool) (records : list dict)
  : exn + list dict :=
  if strict
     && existsb (fun key => float_column_with_nan (frame_column records key))
                (frame_keys records)
  then inl TypeError
  else inr (fillna records).

Section Engine.

Context {World : Type}.
Variable requests_get : request -> World -> reply * World.
Variable time_time : World -> Q.
Variable time_sleep : Q -> World -> World.
(** [pd.DataFrame(records).to_csv(file, ...)]; a failure of the write is
    caught by the caller and is part of the resulting world. *)
Variable to_csv : list dict -> string -> World -> World.
Variable pd_read_csv : string -> World -> exn + data_frame.
(** Whether the pandas that runs refuses a string in a numeric column. *)
Variable pandas_strict : bool.

(** ** Paginated search collector *)

Record collector : Type := {
  world : World;
  repositories_list : list json
}.

(** The statements of the [try] block after [requests.get] has returned
    [r]; the result is the accumulator, or the exception raised. *)
Definition try_body (r : response) (acc : list json) : exn + list json :=
  match raise_for_status r with
  | inl e => inl e
  | inr _ =>
      match response_json r with
      | inl e => inl e
      | inr data =>
          match json_get data "items" (JArr []) with
          | inl e => inl e
          | inr items =>
              if truthy items then list_extend acc items else inr acc
          end
      end
  end.

(** [except requests.exceptions.RequestException: break]; any other
    exception leaves the function. *)
Definition on_exception (e : exn) : signal :=
  if is_request_exception e then Break else Raise e.

(** The lines under [# Handle rate limiting]. *)
Definition handle_rate_limiting (h : rate_headers) (w : World)
  : signal * World * list event :=
  match int_header (x_ratelimit_remaining h) with
  | inl e => (Raise e, w, [])
  | inr remaining =>
      if remaining =? 0 then
        match int_header (x_ratelimit_reset h) with
        | inl e => (Raise e, w, [])
        | inr reset_time =>
            let now := time_time w in
            let d := quota_wait reset_time now in
            (Next, time_sleep d w, [EvTime now; EvSleep d])
        end
      else (Next, w, [])
  end.

(** One iteration of [for page in range(1, pages + 1)]. *)
Definition page_body (access_token query : string) (page : Z) (s : collector)
  : signal * collector * list event :=
  let rq := search_request access_token query page in
  let '(rp, w1) := requests_get rq (world s) in
  match rp with
  | ConnectionFailed =>
      (on_exception RequestException,
       {| world := w1; repositories_list := repositories_list s |},
       [EvGet rq rp])
  | Reply r =>
      match try_body r (repositories_list s) with
      | inl e =>
          (on_exception e,
           {| world := w1; repositories_list := repositories_list s |},
           [EvGet rq rp])
      | inr acc =>
          let '(sg, w2, evs) := handle_rate_limiting (headers r) w1 in
          (sg, {| world := w2; repositories_list := acc |}, EvGet rq rp :: evs)
      end
  end.

(** The inner loop. [break] ends it and the outer loop goes on, so a
    broken loop ends with [Next]; only an escaping exception is passed
    on. *)
Fixpoint pages_loop (access_token query : string) (pages : list Z) (s : collector)
  : signal * collector * list event :=
  match pages with
  | [] => (Next, s, [])
  | page :: rest =>
      match page_body access_token query page s with
      | (Next, s1, evs1) =>
          let '(sg, s2, evs2) := pages_loop access_token query rest s1 in
          (sg, s2, evs1 ++ evs2)
      | (Break, s1, evs1) => (Next, s1, evs1)
      | (Raise e, s1, evs1) => (Raise e, s1, evs1)
      end
  end.

(** The outer loop, [for query in search_queries]. *)
Fixpoint queries_loop (access_token : string) (search_queries : list string)
    (pages : Z) (s : collector) : signal * collector * list event :=
  match search_queries with
  | [] => (Next, s, [])
  | query :: rest =>
      match pages_loop access_token query (py_range 1 (pages + 1)) s with
      | (Raise e, s1, evs1) => (Raise e, s1, evs1)
      | (_, s1, evs1) =>
          let '(sg, s2, evs2) := queries_loop access_token rest pages s1 in
          (sg, s2, evs1 ++ evs2)
      end
  end.

Definition scrape_github_repositories (search_queries : list string)
    (access_token : string) (pages : Z) (w : World)
  : (exn + list json) * World * list event :=
  let '(sg, s, evs) :=
    queries_loop access_token search_queries pages
      {| world := w; repositories_list := [] |} in
  match sg with
  | Raise e => (inl e, world s, evs)
  | _ => (inr (repositories_list s), world s, evs)
  end.

(** ** Saving and reading back the repository table *)

Definition save_repositories_to_csv (repositories : list json)
    (output_file : string) (w : World) : World :=
  match repositories with
  | [] => w
  | _ =>
      match repository_records repositories with
      | inr records => to_csv records output_file w
      | inl _ => w
      end
  end.

(** The [try] block builds the frame, fills it and writes it; whatever
    it raises is caught and logged, and nothing is written. *)
Definition save_users_data_to_csv (users_data : list dict)
    (file_name : string) (w : World) : World :=
  match users_data with
  | [] => w
  | _ =>
      match DataFrame_fillna pandas_strict users_data with
      | inr df => to_csv df file_name w
      | inl _ => w
      end
  end.

Definition save_organizations_data_to_csv (organizations_data : list dict)
    (file_name : string) (w : World) : World :=
  match organizations_data with
  | [] => w
  | _ =>
      match DataFrame_fillna pandas_strict organizations_data with
      | inr df => to_csv df file_name w
      | inl _ => w
      end
  end.

(** Both handlers of [analyze_users_and_organizations] return [[], []]. *)
Definition analyze_users_and_organizations (csv_file : string) (w : World)
  : list string * list string :=
  match pd_read_csv csv_file w with
  | inl _ => ([], [])
  | inr df =>
      match df_column df "Owner Type", df_column df "Owner Username" with
      | inr owner_type, inr owner_username =>
          (unique (dropna (select_where owner_type "User" owner_username)),
           unique (dropna (select_where owner_type "Organization" owner_username)))
      | _, _ => ([], [])
      end
  end.

(** ** Detail fetchers *)

Definition fetch_user_details (username token : string) (w : World)
  : option dict * World * list event :=
  let rq := detail_request username token in
  let '(rp, w') := requests_get rq w in
  (details_or_none user_info rp, w', [EvGet rq rp]).

Definition fetch_organization_data (org_username token : string) (w : World)
  : option dict * World * list event :=
  let rq := detail_request org_username token in
  let '(rp, w') := requests_get rq w in
  (details_or_none org_info rp, w', [EvGet rq rp]).

(** ** The thread pool

    [ThreadPoolExecutor(max_workers)] with the tasks submitted in list
    order. Workers take tasks from the queue first-in first-out, at most
    [max_workers] tasks are in flight, and a task in flight completes at
    any later moment; its exchange with the world happens when it
    completes. The order of these moves is not the program's choice: it is
    a [schedule], and the stage is defined for every schedule. Leaving the
    [with] block waits for all tasks, so a run is a schedule after which
    nothing is queued or in flight. *)

Section Pool.

Context {R : Type}.

Definition task : Type := World -> R * World * list event.

Inductive move : Type :=
| Dequeue
| Complete (i : nat).

Record pool : Type := {
  next_task : nat;
  running : gset nat;
  futures : list (option R);
  pool_world : World;
  pool_log : list (nat * list event)
}.

Definition pool_start (tasks : list task) (w : World) : pool :=
  {| next_task := 0; running := ∅; futures := replicate (length tasks) None;
     pool_world := w; pool_log := [] |}.

Definition pool_step (max_workers : nat) (tasks : list task) (m : move) (p : pool)
  : option pool :=
  match m with
  | Dequeue =>
      if bool_decide (size (running p) < max_workers)%nat
         && bool_decide (next_task p < length tasks)%nat
      then Some {| next_task := S (next_task p);
                   running := running p ∪ {[ next_task p ]};
                   futures := futures p;
                   pool_world := pool_world p;
                   pool_log := pool_log p |}
      else None
  | Complete i =>
      if bool_decide (i ∈ running p) then
        match tasks !! i with
        | Some t =>
            let '(r, w', evs) := t (pool_world p) in
            Some {| next_task := next_task p;
                    running := running p ∖ {[ i ]};
                    futures := <[ i := Some r ]> (futures p);
                    pool_world := w';
                    pool_log := pool_log p ++ [(i, evs)] |}
        | None => None
        end
      else None
  end.

Fixpoint pool_run (max_workers : nat) (tasks : list task) (schedule : list move)
    (p : pool) : option pool :=
  match schedule with
  | [] => Some p
  | m :: schedule' =>
      match pool_step max_workers tasks m p with
      | Some p' => pool_run max_workers tasks schedule' p'
      | None => None
      end
  end.

(** [with ThreadPoolExecutor(max_workers) as executor: ...] followed by
    [future.result()] for every future in submission order. [None] means
    that [schedule] is not a run of the pool. *)
Definition executor (max_workers : nat) (tasks : list task)
    (schedule : list move) (w : World)
  : option (list R * World * list (nat * list event)) :=
  match pool_run max_workers tasks schedule (pool_start tasks w) with
  | Some p =>
      if bool_decide (next_task p = length tasks)
         && bool_decide (running p = ∅)
      then
        match mapM id (futures p) with
        | Some results => Some (results, pool_world p, pool_log p)
        | None => None
        end
      else None
  | None => None
  end.

End Pool.

Definition log_events (log : list (nat * list event)) : list event :=
  concat (map snd log).

(** The tasks submitted by the two comprehensions over [enumerate(users)]
    and [organizations]. *)
Definition user_tasks (users : list string)
    (access_token_1 access_token_2 : string) : list (@task (option dict)) :=
  imap (fun i username =>
          fetch_user_details username (token_for i access_token_1 access_token_2))
       users.

Definition organization_tasks (organizations : list string)
    (access_token_2 : string) : list (@task (option dict)) :=
  map (fun org_username => fetch_organization_data org_username access_token_2)
      organizations.

(** [[future.result() for future in future_tasks
      if future.result() is not None]] *)
Definition collect_results (results : list (option dict)) : list dict :=
  omap id results.

Definition fetch_all_users (max_workers : nat) (users : list string)
    (access_token_1 access_token_2 : string) (schedule : list move) (w : World)
  : option (list dict * World * list (nat * list event)) :=
  match executor max_workers (user_tasks users access_token_1 access_token_2)
                 schedule w with
  | Some (results, w', log) => Some (collect_results results, w', log)
  | None => None
  end.

Definition fetch_all_organizations (max_workers : nat)
    (organizations : list string) (access_token_2 : string)
    (schedule : list move) (w : World)
  : option (list dict * World * list (nat * list event)) :=
  match executor max_workers (organization_tasks organizations access_token_2)
                 schedule w with
  | Some (results, w', log) => Some (collect_results results, w', log)
  | None => None
  end.

(** ** [main] *)

Definition main (environ : gmap string string)
    (schedule_users schedule_organizations : list move) (w : World)
  : option (World * list event) :=
  match load_access_tokens environ with
  | inl _ => Some (w, [])
  | inr (access_token_1, access_token_2) =>
      match scrape_github_repositories search_queries access_token_1 10 w with
      | (inl _, w1, evs1) => Some (w1, evs1)
      | (inr repositories_data, w1, evs1) =>
          let w2 :=
            save_repositories_to_csv repositories_data "repositories_data.csv" w1 in
          let '(users, organizations) :=
            analyze_users_and_organizations "repositories_data.csv" w2 in
          match fetch_all_users 100 users access_token_1 access_token_2
                                schedule_users w2 with
          | None => None
          | Some (all_user_details, w3, log_users) =>
              let w4 := save_users_data_to_csv all_user_details "users_data.csv" w3 in
              match fetch_all_organizations 100 organizations access_token_2
                                            schedule_organizations w4 with
              | None => None
              | Some (all_organizations_data, w5, log_organizations) =>
                  let w6 := save_organizations_data_to_csv
                              all_organizations_data "organizations_data.csv" w5 in
                  Some (w6, evs1 ++ log_events log_users
                                 ++ log_events log_organizations)
              end
          end
      end
  end.

End Engine.

(** ** What the collector makes of one reply

    The fate of a page depends on the reply alone. These observations are
    the vocabulary of the statements below; [page_body_spec] ties them to
    [page_body]. *)

(** The [try] block ends in the [except RequestException] handler: no
    connection, a 4xx/5xx status, or a payload that is not JSON. *)
Definition fetch_failed (rp : reply) : bool :=
  match rp with
  | ConnectionFailed => true
  | Reply r =>
      ((400 <=? status_code r) && (status_code r <? 600))
      || match body r with None => true | Some _ => false end
  end.

(** The items the page adds to the accumulator. *)
Definition page_items (rp : reply) : list json :=
  match rp with
  | ConnectionFailed => []
  | Reply r => match try_body r [] with inr l => l | inl _ => [] end
  end.

(** The same read off the reply: nothing for a failed fetch, and for a
    response whose body is an object the elements of its 'items' when
    that is a list (for a string its characters, for a dict its keys). *)
Definition items_of (rp : reply) : list json :=
  match rp with
  | ConnectionFailed => []
  | Reply r =>
      if (400 <=? status_code r) && (status_code r <? 600) then []
      else
        match body r with
        | Some (JObj d) =>
            match dict_lookup d "items" with
            | Some (JArr xs) => xs
            | Some (JStr s) =>
                map (fun c => JStr (String c EmptyString))
                    (String.list_ascii_of_string s)
            | Some (JObj kvs) => map (fun kv => JStr (fst kv)) kvs
            | _ => []
            end
        | _ => []
        end
  end.

(** The signal of the rate-limit lines, which only read the headers. *)
Definition quota_signal (h : rate_headers) : signal :=
  match int_header (x_ratelimit_remaining h) with
  | inl e => Raise e
  | inr remaining =>
      if remaining =? 0 then
        match int_header (x_ratelimit_reset h) with
        | inl e => Raise e
        | inr _ => Next
        end
      else Next
  end.

(** The reset time the collector waits for after the reply, if it waits. *)
Definition quota_reset (h : rate_headers) : option Z :=
  match int_header (x_ratelimit_remaining h), int_header (x_ratelimit_reset h) with
  | inr remaining, inr reset_time =>
      if remaining =? 0 then Some reset_time else None
  | _, _ => None
  end.

Definition page_signal (rp : reply) : signal :=
  match rp with
  | ConnectionFailed => Break
  | Reply r =>
      match try_body r [] with
      | inl e => on_exception e
      | inr _ => quota_signal (headers r)
      end
  end.

Definition wait_due (rp : reply) : option Z :=
  match rp with
  | ConnectionFailed => None
  | Reply r =>
      match try_body r [] with
      | inl _ => None
      | inr _ => quota_reset (headers r)
      end
  end.

(** The requests of a trace with their replies, in order. *)
Definition gets (evs : list event) : list (request * reply) :=
  omap (fun e => match e with EvGet rq rp => Some (rq, rp) | _ => None end) evs.

(** The requests for the first [k] pages of [query]. *)
Definition first_pages (access_token query : string) (k : nat) : list request :=
  map (fun i => search_request access_token query (Z.of_nat i)) (seq 1 k).

(** The parameters of a request as the server reads them. *)
Definition per_page_of (rq : request) : option json :=
  dict_lookup (params rq) "per_page".

Definition query_of (rq : request) : option json :=
  dict_lookup (params rq) "q".

Definition page_of (rq : request) : option json :=
  dict_lookup (params rq) "page".

(** Requests that ask the search address for pages 1, 2, 3, ... of
    [query], 100 items each, with the token: the request at position [i]
    asks for page [i + 1]. *)
Definition requested_in_order (access_token query : string)
    (rqs : list request) : Prop :=
  forall i rq, rqs !! i = Some rq ->
    url rq = search_url /\
    authorization rq = "token " +:+ access_token /\
    query_of rq = Some (JStr query) /\
    page_of rq = Some (JInt (Z.of_nat (S i))) /\
    per_page_of rq = Some (JInt 100).


(** The part of a run that belongs to one query: requests for pages
    [1..k] in order; no fetch before the last one failed, so that a
    failed fetch is followed by no request of the same query; and the
    query cut short ([k] below [pages]) only by a failed fetch on its last
    request. *)
Definition query_segment (access_token : string) (pages : Z) (query : string)
    (seg : list (request * reply)) : Prop :=
  exists k : nat,
    (k <= Z.to_nat pages)%nat /\
    seg.*1 = first_pages access_token query k /\
    requested_in_order access_token query seg.*1 /\
    (forall i rp, seg.*2 !! i = Some rp -> (S i < k)%nat ->
                  fetch_failed rp = false /\ page_signal rp = Next) /\
    (k = Z.to_nat pages \/
     exists rp, last seg.*2 = Some rp /\ fetch_failed rp = true).

(** The request order of one query, whatever ended it: pages [1..k], and
    all [pages] of them unless the reply to the last request stopped the
    query. *)
Definition query_requests (access_token : string) (pages : Z) (query : string)
    (seg : list (request * reply)) : Prop :=
  exists k : nat,
    (k <= Z.to_nat pages)%nat /\
    seg.*1 = first_pages access_token query k /\
    requested_in_order access_token query seg.*1 /\
    (k = Z.to_nat pages \/
     exists rp, last seg.*2 = Some rp /\ page_signal rp <> Next).

(** A detail fetch that yields a record: a response without error status
    whose body is a JSON object. *)
Definition detail_ok (rp : reply) : bool :=
  match rp with
  | ConnectionFailed => false
  | Reply r =>
      negb ((400 <=? status_code r) && (status_code r <? 600))
      && match body r with Some (JObj _) => true | _ => false end
  end.

(** ** Observations on the thread pool *)

(** The schedule that runs one task after the other, [n] tasks from
    position [k] on. *)
Definition sequential_from (k n : nat) : list move :=
  flat_map (fun i => [Dequeue; Complete i]) (seq k n).

Definition sequential (n : nat) : list move := sequential_from 0 n.

(** The events logged for position [i]. *)
Fixpoint log_at (log : list (nat * list event)) (i : nat) : list event :=
  match log with
  | [] => []
  | (j, evs) :: log' => if (j =? i)%nat then evs else log_at log' i
  end.

(** The reply logged for position [i]. *)
Definition reply_at (log : list (nat * list event)) (i : nat) : reply :=
  match gets (log_at log i) with
  | (_, rp) :: _ => rp
  | [] => ConnectionFailed
  end.

(** What holds of a pool of [n] tasks between two moves: the positions
    logged are those dequeued and no longer running, each once, and the
    future of a logged position holds the value its task returned. [P]
    is what is known of every run of the task at a position. *)
Definition pool_inv {World R : Type} (n : nat)
    (P : nat -> R -> list event -> Prop) (p : @pool World R) : Prop :=
  length (futures p) = n /\
  (next_task p <= n)%nat /\
  NoDup (pool_log p).*1 /\
  (forall i, i ∈ (pool_log p).*1 <-> (i < next_task p)%nat /\ i ∉ running p) /\
  (forall i, i ∈ running p -> (i < next_task p)%nat) /\
  (forall i evs, (i, evs) ∈ pool_log p ->
                 exists r, futures p !! i = Some (Some r) /\ P i r evs).

(** The requests and the replies of a stage, in order of completion. *)
Definition stage_requests (log : list (nat * list event)) : list request :=
  (gets (log_events log)).*1.

Definition stage_replies (log : list (nat * list event)) : list reply :=
  (gets (log_events log)).*2.


(** One entry of the log of a detail stage: position, request, reply. *)
Definition detail_entry (tok : nat -> string) (i : nat) (x : string * reply)
  : nat * list event :=
  (i, [EvGet (detail_request x.1 (tok i)) x.2]).

(** What is known of the detail task at position [i]. *)
Definition detail_task_spec (info : dict -> dict) (names : list string)
    (tok : nat -> string) (i : nat) (r : option dict) (evs : list event) : Prop :=
  exists name rp,
    names !! i = Some name /\
    evs = [EvGet (detail_request name (tok i)) rp] /\
    r = details_or_none info rp.

(** ** Observations on tables and sleeps *)

(** The header of the repository table. *)
Definition repository_columns : list string :=
  [ "Repository Name"; "Owner Username"; "Owner Profile URL"; "Owner Type";
    "Description"; "Created Date"; "Updated Date"; "Last Pushed Date";
    "Repository Size (KB)"; "Stars Count"; "Watchers Count";
    "Primary Language"; "Forks Count"; "Open Issues Count"; "Topics";
    "Default Branch" ].

(** The columns filled by a plain [repo.get(key, ...)], with their key. *)
Definition plain_columns : list (string * string) :=
  [ ("Repository Name", "name"); ("Description", "description");
    ("Created Date", "created_at"); ("Updated Date", "updated_at");
    ("Last Pushed Date", "pushed_at"); ("Repository Size (KB)", "size");
    ("Stars Count", "stargazers_count"); ("Watchers Count", "watchers_count");
    ("Primary Language", "language"); ("Forks Count", "forks_count");
    ("Open Issues Count", "open_issues_count");
    ("Default Branch", "default_branch") ].

Definition user_columns : list string :=
  [ "Username"; "User ID"; "Profile URL"; "Name"; "Company"; "Location";
    "Bio"; "Blog"; "Twitter Username"; "Email"; "Public Repos";
    "Public Gists"; "Followers"; "Following"; "Account Created";
    "Last Updated" ].

Definition organization_columns : list string :=
  [ "Organization Username"; "Organization ID"; "Profile URL"; "Full Name";
    "Location"; "Bio"; "Blog URL"; "Twitter Username"; "Email";
    "Public Repositories"; "Public Gists"; "Followers Count";
    "Following Count"; "Account Created At"; "Last Updated At" ].

(** An event that is not a sleep of negative length. *)
Definition sleep_nonneg (e : event) : Prop :=
  match e with
  | EvSleep d => (0 <= d)%Q
  | _ => True
  end.

Definition is_sleep (e : event) : bool :=
  match e with
  | EvSleep _ => true
  | _ => false
  end.




(** ** A simulated world

    A stateless server given by a function of the request, a clock that
    only [time.sleep] advances, and no files. It serves the examples. *)
Module Sim.

Section Server.

Variable api : request -> reply.

Definition requests_get (rq : request) (w : Q) : reply * Q := (api rq, w).
Definition time_time (w : Q) : Q := w.
Definition time_sleep (d : Q) (w : Q) : Q := (w + d)%Q.
Definition to_csv (_ : list dict) (_ : string) (w : Q) : Q := w.
Definition pd_read_csv (_ : string) (_ : Q) : exn + data_frame :=
  inl FileNotFoundError.
Definition pandas_strict : bool := true.

Definition scrape := scrape_github_repositories requests_get time_time time_sleep.
Definition all_users := fetch_all_users requests_get.
Definition run_main :=
  main requests_get time_time time_sleep to_csv pd_read_csv pandas_strict.

End Server.

Definition ok_headers : rate_headers :=
  {| x_ratelimit_remaining := Numeric 25; x_ratelimit_reset := Numeric 1000 |}.

Definition exhausted_headers (reset_time : Z) : rate_headers :=
  {| x_ratelimit_remaining := Numeric 0; x_ratelimit_reset := Numeric reset_time |}.

Definition ok_page (items : list json) : reply :=
  Reply {| status_code := 200; headers := ok_headers;
           body := Some (JObj [("total_count", JInt 3); ("items", JArr items)]) |}.

Definition forbidden (reset_time : Z) : reply :=
  Reply {| status_code := 403; headers := exhausted_headers reset_time;
           body := Some (JObj [("message", JStr "API rate limit exceeded")]) |}.

Definition repo (name : string) : json := JObj [("name", JStr name)].

(** Batches of [b] tasks in flight at once, each batch completed in
    reverse order of submission. *)
Fixpoint batched (fuel b start n : nat) : list move :=
  match fuel with
  | O => []
  | S fuel' =>
      let m := Nat.min b n in
      match m with
      | O => []
      | _ => replicate m Dequeue
             ++ map Complete (rev (seq start m))
             ++ batched fuel' b (start + m) (n - m)
      end
  end.

(** A search server: query "a" answers page 1 and refuses page 2 with
    an exhausted quota, query "b" has an empty second page, query "c"
    answers with the last unit of quota; anything else is unreachable. *)
Definition last_unit_page (reset_time : Z) (items : list json) : reply :=
  Reply {| status_code := 200; headers := exhausted_headers reset_time;
           body := Some (JObj [("items", JArr items)]) |}.

Definition api_search (rq : request) : reply :=
  match dict_lookup (params rq) "q", dict_lookup (params rq) "page" with
  | Some (JStr "a"), Some (JInt 1) => ok_page [repo "a1"]
  | Some (JStr "a"), Some (JInt _) => forbidden 130
  | Some (JStr "b"), Some (JInt 2) => ok_page []
  | Some (JStr "b"), Some (JInt _) => ok_page [repo "b"]
  | Some (JStr "c"), Some (JInt _) => last_unit_page 130 [repo "c"]
  | _, _ => ConnectionFailed
  end.

(** A detail server: three names fail, each in its own way, and every
    other name gets a profile whose login is the address asked for. *)
Definition api_users (rq : request) : reply :=
  if String.eqb (url rq) "https://api.github.com/users/gone" then
    Reply {| status_code := 404; headers := ok_headers;
             body := Some (JObj [("message", JStr "Not Found")]) |}
  else if String.eqb (url rq) "https://api.github.com/users/down" then
    ConnectionFailed
  else if String.eqb (url rq) "https://api.github.com/users/garbled" then
    Reply {| status_code := 200; headers := ok_headers; body := None |}
  else
    Reply {| status_code := 200; headers := ok_headers;
             body := Some (JObj [("login", JStr (url rq))]) |}.

Definition ten_users : list string :=
  [ "u1"; "gone"; "u3"; "u4"; "down"; "u6"; "u7"; "garbled"; "u9"; "u10" ].

(** The outcome of a user stage on [api_users], from clock 0. *)
Definition users_run (max_workers : nat) (names : list string)
    (schedule : list move) : list dict * Q * list (nat * list event) :=
  default ([], 0%Q, [])
          (all_users api_users max_workers names "T1" "T2" schedule 0%Q).


Definition rows_of (repositories : list json) : list dict :=
  match repository_records repositories with
  | inr rows => rows
  | inl _ => []
  end.

(** A table read back with four rows, one of them without a name. *)
Definition owners_frame : data_frame :=
  [ ("Repository Name", [Cell "r1"; Cell "r2"; Cell "r3"; Cell "r4"]);
    ("Owner Username", [Cell "alice"; Cell "acme"; NaN; Cell "alice"]);
    ("Owner Type", [Cell "User"; Cell "Organization"; Cell "User"; Cell "User"]) ].

Definition read_owners (_ : string) (_ : Q) : exn + data_frame :=
  inr owners_frame.

(** A record with a null description and seven stars. *)
Definition null_description_record : dict :=
  [ ("name", JStr "r"); ("description", JNull); ("stargazers_count", JInt 7) ].

(** A server for a whole run of [main]: the first page of "front-end"
    holds one repository, every other search is unreachable, and details
    are served as by [api_users]. *)
Definition api_hub (rq : request) : reply :=
  if String.eqb (url rq) search_url then
    match dict_lookup (params rq) "q", dict_lookup (params rq) "page" with
    | Some (JStr "front-end"), Some (JInt 1) => ok_page [repo "site"]
    | _, _ => ConnectionFailed
    end
  else api_users rq.

Definition both_tokens : gmap string string :=
  <[ "token_2" := "def" ]> {[ "token_1" := "abc" ]}.

(** [main] with a table that reads back as [owners_frame], one task
    after the other in both stages. *)
Definition main_with_table : Q * list event :=
  default (0%Q, [])
    (main (requests_get api_hub) time_time time_sleep to_csv read_owners
          pandas_strict both_tokens (sequential 1) (sequential 1) 0%Q).

(** [main] with no table to read back. *)
Definition main_without_table : Q * list event :=
  default (0%Q, []) (run_main api_hub both_tokens [] [] 0%Q).

(** A search server whose answer for the query "list" is a JSON list,
    not an object; other queries are served as by [api_search]. *)
Definition api_faulty (rq : request) : reply :=
  match query_of rq with
  | Some (JStr "list") =>
      Reply {| status_code := 200; headers := ok_headers; body := Some (JArr []) |}
  | _ => api_search rq
  end.

(** A world of files: what was written, in order. *)
Definition files_to_csv (records : list dict) (file_name : string)
    (w : list (string * list dict)) : list (string * list dict) :=
  w ++ [(file_name, records)].

(** Two user records, the second with a null number of followers. *)
Definition two_users : list dict :=
  [ user_info [("login", JStr "a"); ("followers", JInt 3)];
    user_info [("login", JStr "b"); ("followers", JNull)] ].

End Sim.

(** ** The shape of a run of the collector *)

(** The events of one page: the request, then the clock reading and the
    wait when a wait is due. *)
Definition page_trace (rq : request) (rp : reply) (now : Q) : list event :=
  EvGet rq rp ::
  match wait_due rp with
  | Some reset_time => [EvTime now; EvSleep (quota_wait reset_time now)]
  | None => []
  end.

(** A trace in which every request is followed by the wait its reply
    calls for, and by nothing else before the next request. *)
Inductive paced : list event -> Prop :=
| paced_nil : paced []
| paced_get rq rp rest :
    wait_due rp = None -> paced rest -> paced (EvGet rq rp :: rest)
| paced_wait rq rp reset_time now rest :
    wait_due rp = Some reset_time -> paced rest ->
    paced (EvGet rq rp :: EvTime now :: EvSleep (quota_wait reset_time now) :: rest).

(** The exchanges of the inner loop over the page numbers [ps], and the
    signal it ends with. *)
Inductive pages_shape (access_token query : string)
  : list Z -> list (request * reply) -> signal -> Prop :=
| shape_nil : pages_shape access_token query [] [] Next
| shape_next p ps rp seg sg :
    page_signal rp = Next ->
    pages_shape access_token query ps seg sg ->
    pages_shape access_token query (p :: ps)
      ((search_request access_token query p, rp) :: seg) sg
| shape_break p ps rp :
    page_signal rp = Break ->
    pages_shape access_token query (p :: ps)
      [(search_request access_token query p, rp)] Next
| shape_raise p ps rp e :
    page_signal rp = Raise e ->
    pages_shape access_token query (p :: ps)
      [(search_request access_token query p, rp)] (Raise e).

(** The exchanges of the outer loop, one segment per query reached. *)
Inductive queries_shape (access_token : string) (pages : Z)
  : list string -> list (list (request * reply)) -> signal -> Prop :=
| qshape_nil : queries_shape access_token pages [] [] Next
| qshape_cons q qs seg segs sg :
    pages_shape access_token q (py_range 1 (pages + 1)) seg Next ->
    queries_shape access_token pages qs segs sg ->
    queries_shape access_token pages (q :: qs) (seg :: segs) sg
| qshape_raise q qs seg e :
    pages_shape access_token q (py_range 1 (pages + 1)) seg (Raise e) ->
    queries_shape access_token pages (q :: qs) [seg] (Raise e).

(** * Facts *)

Lemma try_body_acc r acc :
  try_body r acc =
  match try_body r [] with
  | inr l => inr (acc ++ l)
  | inl e => inl e
  end.
Proof.
  unfold try_body.
  destruct (raise_for_status r); [done|].
  destruct (response_json r) as [e|data]; [done|].
  destruct (json_get data "items" (JArr [])) as [e|items]; [done|].
  destruct (truthy items); [|by rewrite app_nil_r].
  destruct items; simpl; done.
Qed.

Lemma raise_for_status_inl r e :
  raise_for_status r = inl e ->
  e = HTTPError /\ (400 <=? status_code r) && (status_code r <? 600) = true.
Proof.
  unfold raise_for_status.
  destruct ((400 <=? status_code r) && (status_code r <? 600)); naive_solver.
Qed.

Lemma raise_for_status_inr r u :
  raise_for_status r = inr u ->
  (400 <=? status_code r) && (status_code r <? 600) = false.
Proof.
  unfold raise_for_status.
  destruct ((400 <=? status_code r) && (status_code r <? 600)); naive_solver.
Qed.

Lemma list_extend_not_request_exception acc items e :
  list_extend acc items = inl e -> is_request_exception e = false.
Proof. destruct items; simpl; intros; simplify_eq; done. Qed.

(** A page breaks the inner loop exactly when its fetch failed. *)
Lemma page_signal_break rp :
  page_signal rp = Break <-> fetch_failed rp = true.
Proof.
  destruct rp as [|r]; [done|].
  unfold page_signal, fetch_failed, try_body, response_json, quota_signal.
  destruct (raise_for_status r) as [e|u] eqn:Hs.
  { apply raise_for_status_inl in Hs as [-> ->]. done. }
  apply raise_for_status_inr in Hs as ->. simpl.
  destruct (body r) as [data|]; [|done].
  split; [|done].
  destruct data; simpl; try done.
  destruct (truthy _).
  - destruct (list_extend _ _) as [e|l] eqn:He.
    + apply list_extend_not_request_exception in He.
      unfold on_exception. by rewrite He.
    + repeat case_match; done.
  - repeat case_match; done.
Qed.

Lemma page_signal_raise_not_failed rp e :
  page_signal rp = Raise e -> fetch_failed rp = false.
Proof.
  intros H. destruct (fetch_failed rp) eqn:Hf; [|done].
  apply page_signal_break in Hf. congruence.
Qed.

Lemma gets_app evs1 evs2 : gets (evs1 ++ evs2) = gets evs1 ++ gets evs2.
Proof. apply omap_app. Qed.

Lemma gets_page_trace rq rp now : gets (page_trace rq rp now) = [(rq, rp)].
Proof. unfold page_trace. destruct (wait_due rp); done. Qed.

Lemma paced_page_trace rq rp now rest :
  paced rest -> paced (page_trace rq rp now ++ rest).
Proof.
  intros H. unfold page_trace.
  destruct (wait_due rp) eqn:Hw; simpl.
  - by apply paced_wait.
  - by apply paced_get.
Qed.

Lemma py_range_pages pages :
  py_range 1 (pages + 1) = map Z.of_nat (seq 1 (Z.to_nat pages)).
Proof.
  unfold py_range. replace (pages + 1 - 1) with pages by lia.
  rewrite <- fmap_S_seq, <- list_fmap_compose.
  apply list_fmap_ext. intros _ i _. simpl. lia.
Qed.

Lemma pages_shape_signal tok q ps seg sg :
  pages_shape tok q ps seg sg -> sg <> Break.
Proof. induction 1; done. Qed.

Section CollectorFacts.

Context {World : Type}.
Variable requests_get : request -> World -> reply * World.
Variable time_time : World -> Q.
Variable time_sleep : Q -> World -> World.

Local Abbreviation handle_rate_limiting' :=
  (handle_rate_limiting time_time time_sleep).
Local Abbreviation page_body' := (page_body requests_get time_time time_sleep).
Local Abbreviation pages_loop' := (pages_loop requests_get time_time time_sleep).
Local Abbreviation queries_loop' := (queries_loop requests_get time_time time_sleep).
Local Abbreviation scrape :=
  (scrape_github_repositories requests_get time_time time_sleep).

Lemma handle_rate_limiting_spec h w :
  handle_rate_limiting' h w =
  (quota_signal h,
   match quota_reset h with
   | Some reset_time => time_sleep (quota_wait reset_time (time_time w)) w
   | None => w
   end,
   match quota_reset h with
   | Some reset_time =>
       [EvTime (time_time w); EvSleep (quota_wait reset_time (time_time w))]
   | None => []
   end).
Proof.
  unfold handle_rate_limiting, quota_signal, quota_reset.
  destruct (int_header (x_ratelimit_remaining h)) as [e|remaining]; [done|].
  destruct (remaining =? 0); [|by destruct (int_header _)].
  by destruct (int_header (x_ratelimit_reset h)).
Qed.

(** One page: its signal, what it adds and what it emits are functions of
    the reply. *)
Lemma page_body_spec tok q p s :
  exists rp w1 w2,
    requests_get (search_request tok q p) (world s) = (rp, w1) /\
    page_body' tok q p s =
    (page_signal rp,
     {| world := w2; repositories_list := repositories_list s ++ page_items rp |},
     page_trace (search_request tok q p) rp (time_time w1)).
Proof.
  unfold page_body.
  destruct (requests_get (search_request tok q p) (world s)) as [rp w1] eqn:Hget.
  exists rp, w1. destruct rp as [|r].
  - exists w1. split; [done|]. simpl. by rewrite app_nil_r.
  - rewrite try_body_acc. unfold page_signal, page_items, page_trace, wait_due.
    destruct (try_body r []) as [e|l].
    + exists w1. split; [done|]. by rewrite app_nil_r.
    + rewrite handle_rate_limiting_spec. eexists. split; [done|]. done.
Qed.

Lemma pages_loop_spec tok q ps : forall s sg s' evs,
  pages_loop' tok q ps s = (sg, s', evs) ->
  pages_shape tok q ps (gets evs) sg /\
  repositories_list s' =
    repositories_list s ++ flat_map (fun x => page_items x.2) (gets evs) /\
  paced evs.
Proof.
  induction ps as [|p ps IH]; intros s sg s' evs Hrun; simpl in Hrun.
  { simplify_eq. simpl. rewrite app_nil_r. repeat split; constructor. }
  destruct (page_body_spec tok q p s) as (rp & w1 & w2 & _ & Hpage).
  rewrite Hpage in Hrun.
  destruct (page_signal rp) as [| |e] eqn:Hsig.
  - destruct (pages_loop' tok q ps _) as [[sg2 s2] evs2] eqn:Hrest.
    simplify_eq. apply IH in Hrest as (Hshape & Hacc & Hpaced).
    rewrite gets_app, gets_page_trace. simpl in *. split_and!.
    + by constructor.
    + by rewrite Hacc, <- app_assoc.
    + by apply paced_page_trace.
  - simplify_eq. rewrite gets_page_trace. simpl. rewrite app_nil_r. split_and!.
    + by constructor.
    + done.
    + rewrite <- (app_nil_r (page_trace _ _ _)).
      apply paced_page_trace. constructor.
  - simplify_eq. rewrite gets_page_trace. simpl. rewrite app_nil_r. split_and!.
    + by constructor.
    + done.
    + rewrite <- (app_nil_r (page_trace _ _ _)).
      apply paced_page_trace. constructor.
Qed.

Lemma paced_app evs1 evs2 : paced evs1 -> paced evs2 -> paced (evs1 ++ evs2).
Proof.
  induction 1; intros; simpl; [done| |].
  - apply paced_get; auto.
  - apply paced_wait; auto.
Qed.

Lemma queries_loop_spec tok pages qs : forall s sg s' evs,
  queries_loop' tok qs pages s = (sg, s', evs) ->
  exists segs,
    queries_shape tok pages qs segs sg /\
    gets evs = concat segs /\
    repositories_list s' =
      repositories_list s ++ flat_map (fun x => page_items x.2) (gets evs) /\
    paced evs.
Proof.
  induction qs as [|q qs IH]; intros s sg s' evs Hrun; simpl in Hrun.
  { simplify_eq. exists []. simpl. rewrite app_nil_r. repeat split; constructor. }
  destruct (pages_loop' tok q _ s) as [[sg1 s1] evs1] eqn:Hpages.
  apply pages_loop_spec in Hpages as (Hshape & Hacc & Hpaced).
  assert (Hcont : forall sg2 s2 evs2,
             sg1 = Next ->
             queries_loop' tok qs pages s1 = (sg2, s2, evs2) ->
             (sg, s', evs) = (sg2, s2, evs1 ++ evs2) ->
             exists segs,
               queries_shape tok pages (q :: qs) segs sg /\
               gets evs = concat segs /\
               repositories_list s' =
                 repositories_list s
                 ++ flat_map (fun x => page_items x.2) (gets evs) /\
               paced evs).
  { intros sg2 s2 evs2 -> Hrest Heq. simplify_eq.
    apply IH in Hrest as (segs & Hq & Hgets & Hacc2 & Hpaced2).
    exists (gets evs1 :: segs). split_and!.
    - by constructor.
    - by rewrite gets_app, Hgets.
    - rewrite Hacc2, Hacc, gets_app, flat_map_app, app_assoc. done.
    - by apply paced_app. }
  destruct sg1 as [| |e].
  - destruct (queries_loop' tok qs pages s1) as [[sg2 s2] evs2] eqn:Hrest.
    eapply Hcont; eauto.
  - by apply pages_shape_signal in Hshape.
  - simplify_eq. exists [gets evs]. simpl. rewrite app_nil_r. split_and!; try done.
    by constructor.
Qed.

(** The whole run: the result is the accumulator unless a page raised. *)
Lemma scrape_spec qs tok pages w res w' evs :
  scrape qs tok pages w = (res, w', evs) ->
  exists segs sg,
    queries_shape tok pages qs segs sg /\
    gets evs = concat segs /\
    paced evs /\
    match sg with
    | Raise e => res = inl e
    | _ => res = inr (flat_map (fun x => page_items x.2) (gets evs))
    end.
Proof.
  unfold scrape_github_repositories.
  destruct (queries_loop' tok qs pages _) as [[sg s] evs0] eqn:Hrun.
  intros Heq.
  apply queries_loop_spec in Hrun as (segs & Hshape & Hgets & Hacc & Hpaced).
  simpl in Hacc. exists segs, sg.
  destruct sg; simplify_eq; rewrite ?Hacc; done.
Qed.

End CollectorFacts.

(** ** From shapes to segments *)

Lemma pages_shape_facts tok q ps seg sg :
  pages_shape tok q ps seg sg ->
  seg.*1 = map (search_request tok q) (take (length seg) ps) /\
  (length seg <= length ps)%nat /\
  (forall i rp, seg.*2 !! i = Some rp -> (S i < length seg)%nat ->
                page_signal rp = Next) /\
  (Forall (fun rp => page_signal rp = Next) seg.*2 -> length seg = length ps) /\
  match sg with
  | Next =>
      length seg = length ps \/
      exists rp, last seg.*2 = Some rp /\ page_signal rp = Break
  | Raise e => exists rp, last seg.*2 = Some rp /\ page_signal rp = Raise e
  | Break => False
  end.
Proof.
  induction 1 as [|p ps rp seg sg Hrp Hshape IH|p ps rp Hrp|p ps rp e Hrp];
    rewrite ?fmap_cons; cbn [length take map fst snd].
  - split_and!; try done. by left.
  - destruct IH as (Hreq & Hlen & Hbefore & Hall & Hend). split_and!.
    + f_equal. exact Hreq.
    + lia.
    + intros [|i] rp' Hi Hlt; simpl in Hi; [by simplify_eq|].
      apply (Hbefore i); [done|lia].
    + intros Hf. apply Forall_cons in Hf as [_ Hf]. by rewrite Hall.
    + rewrite last_cons. destruct sg; [|done|].
      * destruct Hend as [->|(rp' & -> & Hbr)]; [by left|right; eauto].
      * destruct Hend as (rp' & -> & Hr). eauto.
  - split_and!.
    + done.
    + lia.
    + intros i rp' _ Hlt. lia.
    + intros Hf. apply Forall_cons in Hf as [Hf _]. congruence.
    + right. eauto.
  - split_and!.
    + done.
    + lia.
    + intros i rp' _ Hlt. lia.
    + intros Hf. apply Forall_cons in Hf as [Hf _]. congruence.
    + eauto.
Qed.

Lemma first_pages_take tok q k pages :
  (k <= Z.to_nat pages)%nat ->
  map (search_request tok q) (take k (py_range 1 (pages + 1))) = first_pages tok q k.
Proof.
  intros Hk. rewrite py_range_pages. unfold first_pages.
  rewrite <- fmap_take, take_seq, Nat.min_l by done.
  by rewrite <- list_fmap_compose.
Qed.

Lemma length_py_range pages : length (py_range 1 (pages + 1)) = Z.to_nat pages.
Proof. by rewrite py_range_pages, length_map, length_seq. Qed.

(** The requests built by the collector carry what the server is to
    read: the address, the token, the query, the page number and the page
    size. *)
Lemma first_pages_requested tok q k :
  requested_in_order tok q (first_pages tok q k).
Proof.
  intros i rq Hi. unfold first_pages in Hi.
  rewrite list_lookup_fmap in Hi.
  destruct (seq 1 k !! i) as [j|] eqn:Hj; [|done].
  apply lookup_seq in Hj as [-> _]. simpl in Hi. by simplify_eq.
Qed.

Lemma page_signal_next_not_failed rp :
  page_signal rp = Next -> fetch_failed rp = false.
Proof.
  intros H. destruct (fetch_failed rp) eqn:Hf; [|done].
  apply page_signal_break in Hf. congruence.
Qed.

Lemma pages_shape_query_segment tok pages q seg :
  pages_shape tok q (py_range 1 (pages + 1)) seg Next ->
  query_segment tok pages q seg.
Proof.
  intros H. apply pages_shape_facts in H as (Hreq & Hlen & Hbefore & _ & Hend).
  rewrite length_py_range in *. exists (length seg).
  assert (Hrqs : seg.*1 = first_pages tok q (length seg)).
  { by rewrite Hreq, first_pages_take. }
  split_and!; try done.
  - rewrite Hrqs. apply first_pages_requested.
  - intros i rp Hi Hlt. pose proof (Hbefore i rp Hi Hlt) as Hnext.
    split; [by apply page_signal_next_not_failed|done].
  - destruct Hend as [?|(rp & Hlast & Hbr)]; [by left|right].
    exists rp. split; [done|]. by apply page_signal_break.
Qed.


Lemma pages_shape_query_requests tok pages q seg sg :
  pages_shape tok q (py_range 1 (pages + 1)) seg sg ->
  query_requests tok pages q seg.
Proof.
  intros H. apply pages_shape_facts in H as (Hreq & Hlen & _ & _ & Hend).
  rewrite length_py_range in *. exists (length seg).
  assert (Hrqs : seg.*1 = first_pages tok q (length seg)).
  { by rewrite Hreq, first_pages_take. }
  split_and!; try done.
  - rewrite Hrqs. apply first_pages_requested.
  - destruct sg as [| |e]; [|done|].
    + destruct Hend as [?|(rp & Hlast & Hbr)]; [by left|right].
      exists rp. split; [done|congruence].
    + destruct Hend as (rp & Hlast & Hr). right.
      exists rp. split; [done|congruence].
Qed.

(** A page that raises is the last exchange of its query. *)
Lemma pages_shape_raise_at tok q ps seg sg i rq rp e :
  pages_shape tok q ps seg sg ->
  seg !! i = Some (rq, rp) -> page_signal rp = Raise e ->
  sg = Raise e /\ S i = length seg.
Proof.
  intros H. revert i.
  induction H as [|p ps rp0 seg sg Hrp Hshape IH|p ps rp0 Hrp|p ps rp0 e0 Hrp];
    intros i Hi Hr.
  - done.
  - destruct i as [|i]; simpl in Hi; [simplify_eq; congruence|].
    destruct (IH i Hi Hr) as [-> Hlen]. split; [done|]. simpl. lia.
  - destruct i as [|i]; simpl in Hi; [simplify_eq; congruence|done].
  - destruct i as [|i]; simpl in Hi; [|done]. simplify_eq.
    split; [congruence|done].
Qed.

Lemma queries_shape_signal tok pages qs segs sg :
  queries_shape tok pages qs segs sg -> sg <> Break.
Proof. induction 1; done. Qed.

Lemma queries_shape_next tok pages qs segs :
  queries_shape tok pages qs segs Next ->
  Forall2 (query_segment tok pages) qs segs.
Proof.
  remember Next as sg eqn:Hsg. induction 1; simplify_eq; constructor; auto.
  by apply pages_shape_query_segment.
Qed.

Lemma queries_shape_raise tok pages qs segs e :
  queries_shape tok pages qs segs (Raise e) ->
  exists rq rp, (rq, rp) ∈ concat segs /\ page_signal rp = Raise e.
Proof.
  remember (Raise e) as sg eqn:Hsg.
  induction 1 as [|q qs seg segs sg Hseg Hrest IH|q qs seg e' Hseg]; simplify_eq.
  - destruct IH as (rq & rp & Hin & Hr); [done|].
    exists rq, rp. split; [|done]. simpl. apply elem_of_app. by right.
  - apply pages_shape_facts in Hseg as (_ & _ & _ & _ & rp & Hlast & Hr).
    rewrite fmap_last in Hlast.
    destruct (last seg) as [[rq rp']|] eqn:Hl; simpl in Hlast; simplify_eq.
    exists rq, rp. split; [|done]. simpl. rewrite app_nil_r.
    apply last_Some in Hl as [l' ->]. apply elem_of_app. right. by left.
Qed.

(** The run raised on its last exchange. *)
Lemma queries_shape_raise_at tok pages qs segs sg i rq rp e :
  queries_shape tok pages qs segs sg ->
  concat segs !! i = Some (rq, rp) -> page_signal rp = Raise e ->
  sg = Raise e /\ S i = length (concat segs).
Proof.
  intros H. revert i.
  induction H as [|q qs seg segs sg Hseg Hrest IH|q qs seg e' Hseg];
    intros i Hi Hr; simpl in *.
  - done.
  - apply lookup_app_Some in Hi as [Hi|[Hge Hi]].
    + by destruct (pages_shape_raise_at _ _ _ _ _ _ _ _ _ Hseg Hi Hr).
    + destruct (IH _ Hi Hr) as [-> Hlen]. split; [done|].
      rewrite length_app. lia.
  - rewrite app_nil_r in *.
    by apply (pages_shape_raise_at _ _ _ _ _ _ _ _ _ Hseg Hi Hr).
Qed.

Lemma queries_shape_raise_last tok pages qs segs e :
  queries_shape tok pages qs segs (Raise e) ->
  exists rq rp, last (concat segs) = Some (rq, rp) /\ page_signal rp = Raise e.
Proof.
  remember (Raise e) as sg eqn:Hsg.
  induction 1 as [|q qs seg segs sg Hseg Hrest IH|q qs seg e' Hseg]; simplify_eq.
  - destruct IH as (rq & rp & Hlast & Hr); [done|].
    exists rq, rp. split; [|done]. simpl.
    apply last_Some in Hlast as [l' Hl]. rewrite Hl, app_assoc.
    by rewrite last_snoc.
  - apply pages_shape_facts in Hseg as (_ & _ & _ & _ & rp & Hlast & Hr).
    rewrite fmap_last in Hlast.
    destruct (last seg) as [[rq rp']|] eqn:Hl; simpl in Hlast; simplify_eq.
    exists rq, rp. split; [|done]. simpl. by rewrite app_nil_r.
Qed.


Lemma queries_shape_budget tok pages qs segs sg :
  queries_shape tok pages qs segs sg ->
  (length (concat segs) <= length qs * Z.to_nat pages)%nat.
Proof.
  induction 1 as [|q qs seg segs sg Hseg Hrest IH|q qs seg e Hseg]; simpl.
  - lia.
  - apply pages_shape_facts in Hseg as (_ & Hlen & _).
    rewrite length_py_range in Hlen. rewrite length_app. lia.
  - apply pages_shape_facts in Hseg as (_ & Hlen & _).
    rewrite length_py_range in Hlen. rewrite length_app. simpl. nia.
Qed.

Lemma queries_shape_prefix tok pages qs segs sg :
  queries_shape tok pages qs segs sg ->
  Forall2 (query_requests tok pages) (take (length segs) qs) segs /\
  (length segs <= length qs)%nat /\
  (sg = Next -> length segs = length qs).
Proof.
  induction 1 as [|q qs seg segs sg Hseg Hrest IH|q qs seg e' Hseg]; simpl.
  - split_and!; [constructor|lia|done].
  - destruct IH as (Hf & Hlen & Hfull). split_and!.
    + constructor; [|done]. by eapply pages_shape_query_requests.
    + lia.
    + intros ->. by rewrite Hfull.
  - split_and!; [|lia|done]. rewrite take_0.
    constructor; [|constructor]. by eapply pages_shape_query_requests.
Qed.


Lemma paced_head evs :
  paced evs -> evs = [] \/ exists rq rp rest, evs = EvGet rq rp :: rest.
Proof. destruct 1; eauto. Qed.

(** In a paced trace, what follows a request is decided by its reply. *)
Lemma paced_at evs : paced evs ->
  forall pre rq rp post, evs = pre ++ EvGet rq rp :: post ->
  match wait_due rp with
  | Some reset_time =>
      exists now post', post = EvTime now :: EvSleep (quota_wait reset_time now) :: post'
  | None => post = [] \/ exists rq' rp' post', post = EvGet rq' rp' :: post'
  end.
Proof.
  induction 1 as [|rq0 rp0 rest Hw Hrest IH|rq0 rp0 rt now rest Hw Hrest IH];
    intros pre rq rp post Heq.
  - by destruct pre.
  - destruct pre as [|e pre]; simplify_eq/=.
    + rewrite Hw. by apply paced_head.
    + by eapply IH.
  - destruct pre as [|e pre]; simplify_eq/=.
    + rewrite Hw. eauto.
    + destruct pre as [|e1 pre]; simplify_eq/=.
      destruct pre as [|e2 pre]; simplify_eq/=.
      by eapply IH.
Qed.

(** What a page adds to the accumulator is what its reply lists. *)
Lemma page_items_items_of rp : page_items rp = items_of rp.
Proof.
  destruct rp as [|r]; [done|].
  unfold page_items, items_of, try_body, raise_for_status, response_json,
    json_get, dict_get.
  destruct ((400 <=? status_code r) && (status_code r <? 600)); [done|].
  destruct (body r) as [[| | | | |d]|]; try done.
  destruct (dict_lookup d "items") as [[|b|z|s|xs|kvs]|]; simpl; try done.
  - by destruct b.
  - by destruct (z =? 0).
  - destruct (String.eqb_spec s EmptyString) as [->|_]; done.
  - by destruct xs.
  - by destruct kvs.
Qed.

Lemma flat_map_page_items (l : list (request * reply)) :
  flat_map (fun x => page_items x.2) l = flat_map (fun x => items_of x.2) l.
Proof.
  induction l as [|x l IH]; [done|]. simpl.
  by rewrite IH, page_items_items_of.
Qed.

Lemma page_items_failed rp : fetch_failed rp = true -> page_items rp = [].
Proof.
  intros Hf. apply page_signal_break in Hf.
  destruct rp as [|r]; [done|]. unfold page_signal, page_items in *.
  destruct (try_body r []) as [e|l]; [done|].
  unfold quota_signal in Hf. repeat case_match; done.
Qed.

Lemma wait_due_failed rp : fetch_failed rp = true -> wait_due rp = None.
Proof.
  intros Hf. apply page_signal_break in Hf.
  destruct rp as [|r]; [done|]. unfold page_signal, wait_due in *.
  destruct (try_body r []) as [e|l]; [done|].
  unfold quota_signal in Hf. repeat case_match; done.
Qed.

Lemma quota_wait_nonneg reset_time now : (0 <= quota_wait reset_time now)%Q.
Proof. unfold quota_wait. apply Q.le_max_r. Qed.

Lemma quota_wait_elapsed reset_time now :
  (inject_Z reset_time <= now - 1)%Q -> (quota_wait reset_time now == 0)%Q.
Proof.
  intros H. unfold quota_wait, sleep_duration. apply Q.max_r. lra.
Qed.

Lemma quota_wait_pending reset_time now :
  (now - 1 <= inject_Z reset_time)%Q ->
  (quota_wait reset_time now == inject_Z reset_time - now + 1)%Q.
Proof.
  intros H. unfold quota_wait, sleep_duration. apply Q.max_l. lra.
Qed.

(** * The collector: rate limit, failures, order *)

Section CollectorTheorems.

Context {World : Type}.
Variable requests_get : request -> World -> reply * World.
Variable time_time : World -> Q.
Variable time_sleep : Q -> World -> World.

Local Abbreviation handle_rate_limiting' :=
  (handle_rate_limiting time_time time_sleep).
Local Abbreviation page_body' := (page_body requests_get time_time time_sleep).
Local Abbreviation pages_loop' := (pages_loop requests_get time_time time_sleep).
Local Abbreviation scrape :=
  (scrape_github_repositories requests_get time_time time_sleep).

(** C1, as the code has it. When the remaining-quota header reads 0 the
    rate-limit lines read the clock and sleep for
    [max(reset_time - now + 1, 0)] seconds. This wait is never negative;
    it is exactly 0 for every reset time at or before [now - 1]; and it
    is [reset_time - now + 1] for every reset time from [now - 1] on, in
    particular for every reset time after [now]. *)
Theorem quota_wait_is_floored_reset_distance
    (h : rate_headers) (w : World) (reset_time : Z) :
  int_header (x_ratelimit_remaining h) = inr 0 ->
  int_header (x_ratelimit_reset h) = inr reset_time ->
  let now := time_time w in
  let d := Qmax (inject_Z reset_time - now + 1) 0 in
  handle_rate_limiting' h w = (Next, time_sleep d w, [EvTime now; EvSleep d]) /\
  (0 <= d)%Q /\
  ((inject_Z reset_time <= now - 1)%Q -> (d == 0)%Q) /\
  ((now - 1 <= inject_Z reset_time)%Q -> (d == inject_Z reset_time - now + 1)%Q) /\
  ((now < inject_Z reset_time)%Q -> (d == inject_Z reset_time - now + 1)%Q).
Proof.
  intros Hrem Hreset now d. split_and!.
  - unfold handle_rate_limiting. rewrite Hrem, Hreset. done.
  - apply (quota_wait_nonneg reset_time now).
  - apply quota_wait_elapsed.
  - apply quota_wait_pending.
  - intros H. apply quota_wait_pending. lra.
Qed.

(** C2. A failed fetch (no connection, an HTTP error status, a body that
    is not JSON) never aborts the collection: when the run raises, the
    reply that made it raise is the last of the run and was not a failed
    fetch. Otherwise the exchanges of the run split into one segment per
    query, in order, for every query of the list. A segment requests
    pages 1, 2, ... of its query (the page number, the query and the page
    size are read back from the requests); no fetch of a segment other
    than its last one failed, so after a failed fetch nothing more is
    asked of that query; and a segment stops before [pages] only at a
    failed fetch. The result is the items listed by the replies of all
    exchanges of the run, in order, a failed fetch listing none: nothing
    accumulated before a failure is dropped. *)
Theorem fetch_failure_abandons_only_current_query
    (search_queries : list string) (access_token : string) (pages : Z) (w : World) :
  let '(res, _, evs) := scrape search_queries access_token pages w in
  match res with
  | inr repositories =>
      (exists segs,
          gets evs = concat segs /\
          Forall2 (query_segment access_token pages) search_queries segs) /\
      repositories = flat_map (fun x => items_of x.2) (gets evs) /\
      repositories = flat_map (fun x => page_items x.2) (gets evs) /\
      (forall rq rp, (rq, rp) ∈ gets evs -> fetch_failed rp = true ->
                     items_of rp = [])
  | inl e =>
      exists rq rp,
        last (gets evs) = Some (rq, rp) /\
        fetch_failed rp = false /\ page_signal rp = Raise e
  end.
Proof.
  destruct (scrape search_queries access_token pages w) as [[res w'] evs] eqn:Hrun.
  apply scrape_spec in Hrun as (segs & sg & Hshape & Hgets & _ & Hres).
  destruct sg as [| |e]; subst res.
  - split_and!; [|by rewrite flat_map_page_items|done|].
    + exists segs. split; [done|]. by apply queries_shape_next.
    + intros rq rp _ Hf. rewrite <- page_items_items_of.
      by apply page_items_failed.
  - by apply queries_shape_signal in Hshape.
  - apply queries_shape_raise_last in Hshape as (rq & rp & Hlast & Hr).
    exists rq, rp. rewrite Hgets. split_and!; try done.
    by eapply page_signal_raise_not_failed.
Qed.

(** C4, as the code has it. After a reply on which the [try] block
    completes, the rate-limit headers are read before anything else
    happens: when the remaining quota reads 0 the next two events are the
    clock reading and the wait computed from the reset header, and
    otherwise the next event, if any, is the next request. After a failed
    fetch, an HTTP error response with its headers included, the headers
    are not read: the next event, if any, is the next request. *)
Theorem quota_inspected_after_accepted_pages
    (search_queries : list string) (access_token : string) (pages : Z) (w : World)
    (pre : list event) (rq : request) (rp : reply) (post : list event) :
  (scrape search_queries access_token pages w).2 = pre ++ EvGet rq rp :: post ->
  (forall r acc, rp = Reply r -> try_body r [] = inr acc ->
     match quota_reset (headers r) with
     | Some reset_time =>
         exists now post',
           post = EvTime now :: EvSleep (quota_wait reset_time now) :: post'
     | None => post = [] \/ exists rq' rp' post', post = EvGet rq' rp' :: post'
     end) /\
  (fetch_failed rp = true ->
     post = [] \/ exists rq' rp' post', post = EvGet rq' rp' :: post').
Proof.
  destruct (scrape search_queries access_token pages w) as [[res w'] evs] eqn:Hrun.
  simpl. intros Hevs.
  apply scrape_spec in Hrun as (segs & sg & _ & _ & Hpaced & _).
  pose proof (paced_at evs Hpaced pre rq rp post Hevs) as Hat.
  split.
  - intros r acc -> Htry. unfold wait_due in Hat. by rewrite Htry in Hat.
  - intros Hf. by rewrite (wait_due_failed rp Hf) in Hat.
Qed.


(** C7. A page whose decoded body has an empty [items] list, or none,
    leaves the accumulator as it was and is not a failed fetch: the page
    ends with the signal of the rate-limit lines alone, never with
    [Break], and when that signal is [Next] the loop goes on with the
    remaining pages of the query from the unchanged accumulator. *)
Theorem empty_page_continues
    (access_token query : string) (page : Z) (rest : list Z) (s : collector)
    (r : response) (w1 : World) (d : dict) :
  requests_get (search_request access_token query page) (world s) = (Reply r, w1) ->
  raise_for_status r = inr tt ->
  body r = Some (JObj d) ->
  dict_get d "items" (JArr []) = JArr [] ->
  exists w2 evs,
    let rq := search_request access_token query page in
    let s1 := {| world := w2; repositories_list := repositories_list s |} in
    page_body' access_token query page s
      = (quota_signal (headers r), s1, EvGet rq (Reply r) :: evs) /\
    quota_signal (headers r) <> Break /\
    page_items (Reply r) = [] /\
    fetch_failed (Reply r) = false /\
    (quota_signal (headers r) = Next ->
     pages_loop' access_token query (page :: rest) s =
       let '(sg, s', evs') := pages_loop' access_token query rest s1 in
       (sg, s', (EvGet rq (Reply r) :: evs) ++ evs')).
Proof.
  intros Hget Hstatus Hbody Hitems.
  assert (Htry : forall acc, try_body r acc = inr acc).
  { intros acc. unfold try_body, response_json. rewrite Hstatus, Hbody. simpl.
    by rewrite Hitems. }
  destruct (handle_rate_limiting' (headers r) w1) as [[sg w2] evs] eqn:Hrate.
  pose proof Hrate as Hrate'.
  rewrite handle_rate_limiting_spec in Hrate'.
  assert (sg = quota_signal (headers r)) as -> by congruence.
  assert (Hpage : page_body' access_token query page s =
                  (quota_signal (headers r),
                   {| world := w2; repositories_list := repositories_list s |},
                   EvGet (search_request access_token query page) (Reply r) :: evs)).
  { unfold page_body. rewrite Hget, Htry, Hrate. done. }
  exists w2, evs. simpl. split_and!.
  - done.
  - unfold quota_signal. repeat case_match; done.
  - unfold page_items. by rewrite Htry.
  - unfold fetch_failed. rewrite Hbody.
    by rewrite (raise_for_status_inr _ _ Hstatus).
  - intros Hnext. rewrite Hpage, Hnext. done.
Qed.

End CollectorTheorems.

(** * The thread pool *)

Section PoolFacts.

Context {World R : Type}.
Variable max_workers : nat.
Variable tasks : list (@task World R).
Variable P : nat -> R -> list event -> Prop.
Hypothesis tasks_sound : forall i t w r w' evs,
  tasks !! i = Some t -> t w = (r, w', evs) -> P i r evs.

Lemma pool_start_inv w : pool_inv (length tasks) P (pool_start tasks w).
Proof.
  unfold pool_inv, pool_start. simpl. split_and!.
  - apply length_replicate.
  - lia.
  - constructor.
  - intros i. split; [by intros ?%elem_of_nil|lia].
  - set_solver.
  - by intros i evs ?%elem_of_nil.
Qed.

Lemma pool_step_inv m p p' :
  pool_inv (length tasks) P p ->
  pool_step max_workers tasks m p = Some p' ->
  pool_inv (length tasks) P p'.
Proof.
  intros (Hlen & Hnext & Hnodup & Hdone & Hrun & Hres) Hstep.
  destruct m as [|i]; simpl in Hstep.
  - destruct (bool_decide (size (running p) < max_workers)%nat); [|done].
    case_bool_decide as Hlt; [|done]. simplify_eq/=. unfold pool_inv. simpl.
    split_and!; [done|lia|done| | |done].
    + intros i. rewrite Hdone. set_unfold. split.
      * intros [Hi Hn]. split; [lia|]. intros [?|?]; [done|lia].
      * intros [Hi Hn]. split; [|by auto].
        destruct (decide (i = next_task p)); [by destruct Hn; auto|lia].
    + intros i [Hi|Hi]%elem_of_union; [by apply Hrun in Hi; lia|].
      set_unfold. lia.
  - case_bool_decide as Hin; [|done].
    destruct (tasks !! i) as [t|] eqn:Ht; [|done].
    destruct (t (pool_world p)) as [[r w'] evs] eqn:Hrun_t.
    simplify_eq. unfold pool_inv. simpl.
    assert (Hi : i ∉ (pool_log p).*1).
    { intros Hi. apply Hdone in Hi as [_ Hi]. done. }
    split_and!.
    + by rewrite length_insert.
    + done.
    + rewrite fmap_app. apply NoDup_app. split_and!; [done| |apply NoDup_singleton].
      intros j Hj ->%list_elem_of_singleton. done.
    + intros j. rewrite fmap_app, elem_of_app, Hdone. simpl. set_unfold. split.
      * intros [[Hj Hn]|[->|[]]]; [by split; [|intros [? ?]]|].
        split; [by apply Hrun|]. by intros [? ?].
      * intros [Hj Hn]. destruct (decide (j = i)); [by right; left|left].
        split; [done|]. intros ?. apply Hn. done.
    + intros j [Hj _]%elem_of_difference. by apply Hrun.
    + intros j evs' [Hj|Hj]%elem_of_app.
      * destruct (Hres j evs' Hj) as (r' & Hf & HP). exists r'. split; [|done].
        rewrite list_lookup_insert_ne; [done|].
        intros ->. apply Hi. apply list_elem_of_fmap. by exists (j, evs').
      * apply list_elem_of_singleton in Hj. simplify_eq. exists r. split.
        -- apply list_lookup_insert_eq. rewrite Hlen.
           apply Hrun in Hin. lia.
        -- by eapply tasks_sound.
Qed.

Lemma pool_run_inv schedule : forall p p',
  pool_inv (length tasks) P p ->
  pool_run max_workers tasks schedule p = Some p' ->
  pool_inv (length tasks) P p'.
Proof.
  induction schedule as [|m schedule IH]; intros p p' Hinv Hrun; simpl in Hrun.
  { by simplify_eq. }
  destruct (pool_step max_workers tasks m p) as [p1|] eqn:Hstep; [|done].
  eapply IH; [|done]. by eapply pool_step_inv.
Qed.

(** A pool with nothing queued and nothing in flight holds a result for
    every task. *)
Lemma pool_inv_complete (p : @pool World R) :
  pool_inv (length tasks) P p ->
  next_task p = length tasks -> running p = ∅ ->
  (pool_log p).*1 ≡ₚ seq 0 (length tasks) /\
  exists results,
    mapM id (futures p) = Some results /\
    length results = length tasks /\
    forall i evs, (i, evs) ∈ pool_log p ->
                  exists r, results !! i = Some r /\ P i r evs.
Proof.
  intros (Hlen & Hnext & Hnodup & Hdone & Hrun & Hres) Hn Hempty.
  assert (Hall : forall i, i ∈ (pool_log p).*1 <-> (i < length tasks)%nat).
  { intros i. rewrite Hdone, Hn, Hempty. split; [by intros [? _]|].
    intros Hi. split; [done|]. apply not_elem_of_empty. }
  split.
  { apply NoDup_Permutation; [done|apply NoDup_seq|].
    intros i. rewrite Hall, elem_of_seq. lia. }
  assert (Hsome : Forall (is_Some ∘ id) (futures p)).
  { apply Forall_lookup. intros i x Hx.
    assert (Hi : (i < length tasks)%nat).
    { rewrite <- Hlen. by eapply lookup_lt_Some. }
    apply Hall, list_elem_of_fmap in Hi as ([j evs] & -> & Hin).
    destruct (Hres _ _ Hin) as (r & Hf & _). simpl in *. simplify_eq. by eexists. }
  apply mapM_is_Some_2 in Hsome as [results Hm]. exists results.
  pose proof Hm as HF%mapM_Some_1. split_and!; [done| |].
  - rewrite <- Hlen. symmetry. by eapply Forall2_length.
  - intros i evs Hin. destruct (Hres _ _ Hin) as (r & Hf & HP).
    destruct (Forall2_lookup_l _ _ _ _ _ HF Hf) as (y & Hy & Heq).
    simpl in Heq. simplify_eq. eauto.
Qed.

Lemma executor_spec schedule w results w' log :
  executor max_workers tasks schedule w = Some (results, w', log) ->
  length results = length tasks /\
  NoDup log.*1 /\
  log.*1 ≡ₚ seq 0 (length tasks) /\
  forall i evs, (i, evs) ∈ log -> exists r, results !! i = Some r /\ P i r evs.
Proof.
  unfold executor.
  destruct (pool_run max_workers tasks schedule (pool_start tasks w))
    as [p|] eqn:Hrun; [|done].
  apply pool_run_inv in Hrun; [|apply pool_start_inv].
  case_bool_decide as Hn; [|done]. case_bool_decide as Hempty; [|done]. simpl.
  destruct (pool_inv_complete p Hrun Hn Hempty) as (Hperm & results' & Hm & Hlen & Hres).
  rewrite Hm. intros ?. simplify_eq. split_and!; try done.
  by destruct Hrun as (_ & _ & ? & _).
Qed.

End PoolFacts.

(** ** The log of a detail stage, position by position *)

Lemma log_at_elem log i evs :
  NoDup log.*1 -> (i, evs) ∈ log -> log_at log i = evs.
Proof.
  induction log as [|[j e] log IH]; intros Hnd Hin.
  { by apply elem_of_nil in Hin. }
  rewrite fmap_cons in Hnd. apply NoDup_cons in Hnd as [Hj Hnd]. simpl in *.
  apply elem_of_cons in Hin as [Heq|Hin].
  - simplify_eq. by rewrite Nat.eqb_refl.
  - destruct (Nat.eqb_spec j i) as [->|Hne]; [|by apply IH].
    destruct Hj. apply list_elem_of_fmap. by exists (i, evs).
Qed.

Lemma fst_imap_detail_entry tok (l : list (string * reply)) : forall k,
  (imap (fun i => detail_entry tok (k + i)) l).*1 = seq k (length l).
Proof.
  induction l as [|x l IH]; intros k; [done|].
  rewrite imap_cons, fmap_cons. simpl. rewrite Nat.add_0_r. f_equal.
  rewrite <- (IH (S k)). f_equal. apply imap_ext. intros i y _. simpl.
  by rewrite Nat.add_succ_r.
Qed.

Lemma NoDup_imap_detail_entry tok (l : list (string * reply)) :
  NoDup (imap (detail_entry tok) l).
Proof.
  apply (NoDup_fmap_1 fst).
  change (imap (detail_entry tok) l)
    with (imap (fun i => detail_entry tok (0 + i)) l).
  rewrite fst_imap_detail_entry. apply NoDup_seq.
Qed.

Lemma detail_log_aligned info names tok results log :
  length results = length names ->
  NoDup log.*1 ->
  log.*1 ≡ₚ seq 0 (length names) ->
  (forall i evs, (i, evs) ∈ log ->
     exists r, results !! i = Some r /\ detail_task_spec info names tok i r evs) ->
  exists rps,
    length rps = length names /\
    log ≡ₚ imap (detail_entry tok) (zip names rps) /\
    results = map (details_or_none info) rps.
Proof.
  intros Hlen Hnd Hperm Hres.
  exists (map (reply_at log) (seq 0 (length names))).
  assert (Hrps : forall i, (i < (length names))%nat ->
             (map (reply_at log) (seq 0 (length names))) !! i = Some (reply_at log i)).
  { intros i Hi. rewrite list_lookup_fmap, lookup_seq_lt by done. done. }
  assert (Hentry : forall i evs, (i, evs) ∈ log ->
             exists name r,
               (i < (length names))%nat /\ names !! i = Some name /\
               evs = [EvGet (detail_request name (tok i)) (reply_at log i)] /\
               results !! i = Some r /\
               r = details_or_none info (reply_at log i)).
  { intros i evs Hin.
    destruct (Hres i evs Hin) as (r & Hr & name & rp & Hname & -> & ->).
    assert (reply_at log i = rp) as ->.
    { unfold reply_at. by rewrite (log_at_elem _ _ _ Hnd Hin). }
    exists name, (details_or_none info rp). split_and!; try done.
    by eapply lookup_lt_Some. }
  assert (Hlogged : forall i, (i < (length names))%nat -> exists evs, (i, evs) ∈ log).
  { intros i Hi.
    assert (Hi' : i ∈ log.*1) by (rewrite Hperm, elem_of_seq; lia).
    apply list_elem_of_fmap in Hi' as ([j evs] & -> & Hin). eauto. }
  split_and!.
  - by rewrite length_map, length_seq.
  - apply NoDup_Permutation.
    + by eapply NoDup_fmap_1.
    + apply NoDup_imap_detail_entry.
    + intros [i evs]. split.
      * intros Hin.
        destruct (Hentry i evs Hin) as (name & r & Hi & Hname & -> & _).
        apply (elem_of_lookup_imap_2 (detail_entry tok) _ (name, reply_at log i) i).
        apply lookup_zip_with_Some. exists name, (reply_at log i).
        split_and!; [done|done|by apply Hrps].
      * intros Hin. apply elem_of_lookup_imap_1 in Hin as (j & [name rp] & Heq & Hz).
        unfold detail_entry in Heq. simpl in Heq. simplify_eq.
        apply lookup_zip_with_Some in Hz as (name' & rp' & Heq & Hname & Hrp).
        simplify_eq.
        assert (Hj : (j < (length names))%nat) by by eapply lookup_lt_Some.
        rewrite Hrps in Hrp by done. simplify_eq.
        destruct (Hlogged j Hj) as (evs & Hin).
        destruct (Hentry j evs Hin) as (name & r & _ & Hname' & -> & _).
        by simplify_eq.
  - apply list_eq. intros i. rewrite list_lookup_fmap.
    destruct (decide (i < (length names))%nat) as [Hi|Hi].
    + rewrite Hrps by done. simpl.
      destruct (Hlogged i Hi) as (evs & Hin).
      destruct (Hentry i evs Hin) as (name & r & _ & _ & _ & -> & ->). done.
    + rewrite !lookup_ge_None_2; [done| |lia].
      rewrite length_map, length_seq. lia.
Qed.

Lemma log_events_detail tok (l : list (string * reply)) : forall k,
  gets (log_events (imap (fun i => detail_entry tok (k + i)) l))
  = imap (fun i x => (detail_request x.1 (tok (k + i)%nat), x.2)) l.
Proof.
  unfold log_events.
  induction l as [|x l IH]; intros k; [done|].
  rewrite !imap_cons. simpl. f_equal.
  rewrite <- (imap_ext (fun i x => (detail_request x.1 (tok (S k + i)%nat), x.2)))
    by (intros i y _; simpl; by rewrite Nat.add_succ_r).
  rewrite <- IH. do 3 f_equal. apply imap_ext. intros i y _. simpl.
  by rewrite Nat.add_succ_r.
Qed.

Lemma length_omap_details info rps :
  length (omap (details_or_none info) rps) = length (filter (fun rp => detail_ok rp = true) rps).
Proof.
  assert (Hok : forall rp, is_Some (details_or_none info rp) <-> detail_ok rp = true).
  { intros [|r]; unfold details_or_none, detail_ok; simpl.
    { split; [by intros [? ?]|done]. }
    destruct (raise_for_status r) as [e|u] eqn:Hs.
    - apply raise_for_status_inl in Hs as [_ ->]. split; [by intros [? ?]|done].
    - apply raise_for_status_inr in Hs as ->. unfold response_json. simpl.
      destruct (body r) as [[]|]; simpl; split; try done; by intros [? ?]. }
  induction rps as [|rp rps IH]; [done|].
  rewrite filter_cons. change (omap ?f (rp :: rps))
    with (match f rp with Some y => y :: omap f rps | None => omap f rps end).
  destruct (details_or_none info rp) as [d|] eqn:Hd.
  - rewrite decide_True; [simpl; by rewrite IH|]. apply Hok. by eexists.
  - rewrite decide_False; [done|]. intros Hk. apply Hok in Hk as [? ?]. congruence.
Qed.

Lemma omap_id_fmap {A B : Type} (f : A -> option B) (l : list A) :
  omap id (f <$> l) = omap f l.
Proof.
  induction l as [|x l IH]; [done|]. cbn.
  destruct (f x); cbn; [f_equal|]; exact IH.
Qed.

Lemma gets_detail_log tok names rps log :
  length rps = length names ->
  log ≡ₚ imap (detail_entry tok) (zip names rps) ->
  stage_requests log ≡ₚ imap (fun i name => detail_request name (tok i)) names /\
  stage_replies log ≡ₚ rps.
Proof.
  intros Hlen Hperm. unfold stage_requests, stage_replies, gets, log_events.
  rewrite Hperm.
  change (imap (detail_entry tok) (zip names rps))
    with (imap (fun i => detail_entry tok (0 + i)) (zip names rps)).
  pose proof (log_events_detail tok (zip names rps) 0) as Hg.
  unfold gets, log_events in Hg. rewrite Hg. clear Hg. simpl. split.
  - rewrite fmap_imap.
    rewrite <- (fst_zip names rps) at 2 by lia.
    rewrite imap_fmap. done.
  - rewrite fmap_imap.
    rewrite <- (snd_zip names rps) at 2 by lia.
    rewrite <- (imap_const snd). done.
Qed.





Lemma elem_of_unique x l : x ∈ unique l <-> x ∈ l.
Proof.
  induction l as [|y l IH]; [done|]. simpl.
  rewrite !elem_of_cons, list_elem_of_filter, IH.
  destruct (decide (x = y)) as [Heq|Hne].
  - split; intros _; by left.
  - split; (intros [?|?]; [by left|right]); [tauto|done].
Qed.

Lemma elem_of_dropna x col : x ∈ dropna col <-> Cell x ∈ col.
Proof.
  unfold dropna. rewrite list_elem_of_omap. split.
  - intros (c & Hc & Heq). destruct c; by simplify_eq.
  - intros Hc. exists (Cell x). done.
Qed.

Lemma elem_of_select_where c value by_col : forall col,
  c ∈ select_where by_col value col <->
  exists i, by_col !! i = Some (Cell value) /\ col !! i = Some c.
Proof.
  induction by_col as [|b by_col IH]; intros col; simpl.
  { split; [by intros ?%elem_of_nil|by intros (i & ? & _)]. }
  destruct col as [|c0 col].
  { split; [by intros ?%elem_of_nil|by intros (i & _ & ?)]. }
  assert (Hskip : c ∈ select_where by_col value col <->
                  exists i, (b :: by_col) !! S i = Some (Cell value) /\
                            (c0 :: col) !! S i = Some c).
  { by rewrite IH. }
  assert (Htail : b <> Cell value ->
            (c ∈ select_where by_col value col <->
             exists i, (b :: by_col) !! i = Some (Cell value) /\
                       (c0 :: col) !! i = Some c)).
  { intros Hb. rewrite Hskip. split.
    - intros (i & ? & ?). by exists (S i).
    - intros ([|i] & Hi & ?); [simpl in Hi; by simplify_eq|by exists i]. }
  destruct b as [|s]; [by apply Htail|].
  destruct (String.eqb_spec s value) as [->|Hne]; [|apply Htail; congruence].
  rewrite elem_of_cons, Hskip. split.
  - intros [->|(i & ? & ?)]; [by exists 0%nat|by exists (S i)].
  - intros ([|i] & Hi & Hc); [left; simpl in Hc; by simplify_eq|right; by exists i].
Qed.


Lemma query_requests_are_searches tok pages qs segs :
  Forall2 (query_requests tok pages) qs segs ->
  Forall (fun rq => url rq = search_url /\ authorization rq = "token " +:+ tok)
         (concat segs).*1.
Proof.
  induction 1 as [|q seg qs segs Hseg _ IH]; [constructor|].
  simpl. rewrite fmap_app. apply Forall_app. split; [|done].
  destruct Hseg as (k & _ & -> & _). unfold first_pages.
  apply Forall_fmap, Forall_forall. done.
Qed.

Lemma detail_request_not_search name token :
  url (detail_request name token) <> search_url.
Proof. simpl. unfold search_url. discriminate. Qed.


Section CollectorRequests.

Context {World : Type}.
Variable requests_get : request -> World -> reply * World.
Variable time_time : World -> Q.
Variable time_sleep : Q -> World -> World.

Local Abbreviation scrape :=
  (scrape_github_repositories requests_get time_time time_sleep).

Lemma scrape_requests_are_searches qs tok pages w :
  let evs := (scrape qs tok pages w).2 in
  (length (gets evs) <= length qs * Z.to_nat pages)%nat /\
  Forall (fun rq => url rq = search_url /\ authorization rq = "token " +:+ tok)
         (gets evs).*1.
Proof.
  destruct (scrape qs tok pages w) as [[res w'] evs] eqn:Hrun. simpl.
  apply scrape_spec in Hrun as (segs & sg & Hshape & Hgets & _ & _).
  split.
  - rewrite Hgets. by eapply queries_shape_budget.
  - rewrite Hgets. eapply query_requests_are_searches.
    by apply (queries_shape_prefix _ _ _ _ _ Hshape).
Qed.

End CollectorRequests.

Section StageFacts.

Context {World : Type}.
Variable requests_get : request -> World -> reply * World.

Lemma user_tasks_sound users t1 t2 i t w r w' evs :
  user_tasks requests_get users t1 t2 !! i = Some t ->
  t w = (r, w', evs) ->
  detail_task_spec user_info users (fun i => token_for i t1 t2) i r evs.
Proof.
  unfold user_tasks. rewrite list_lookup_imap.
  destruct (users !! i) as [name|] eqn:Hname; [|done]. simpl.
  intros ? Hrun. simplify_eq. unfold fetch_user_details in Hrun.
  destruct (requests_get _ w) as [rp w1]. simplify_eq.
  exists name, rp. done.
Qed.

Lemma organization_tasks_sound organizations t2 i t w r w' evs :
  organization_tasks requests_get organizations t2 !! i = Some t ->
  t w = (r, w', evs) ->
  detail_task_spec org_info organizations (fun _ => t2) i r evs.
Proof.
  unfold organization_tasks. rewrite list_lookup_fmap.
  destruct (organizations !! i) as [name|] eqn:Hname; [|done]. simpl.
  intros ? Hrun. simplify_eq. unfold fetch_organization_data in Hrun.
  destruct (requests_get _ w) as [rp w1]. simplify_eq.
  exists name, rp. done.
Qed.

(** The user stage: the log is, up to the order of completion, one
    exchange per position of the list, and the records are those of the
    positions whose exchange gave one, in the order of the list. *)
Lemma fetch_all_users_spec max_workers users t1 t2 schedule w out w' log :
  fetch_all_users requests_get max_workers users t1 t2 schedule w
    = Some (out, w', log) ->
  exists rps,
    length rps = length users /\
    log ≡ₚ imap (detail_entry (fun i => token_for i t1 t2)) (zip users rps) /\
    out = omap (details_or_none user_info) rps.
Proof.
  unfold fetch_all_users.
  destruct (executor _ _ _ _) as [[[results w1] log1]|] eqn:Hex; [|done].
  intros ?. simplify_eq.
  eapply executor_spec in Hex as (Hlen & Hnd & Hperm & Hres);
    [|apply user_tasks_sound].
  unfold user_tasks in Hlen, Hperm. rewrite length_imap in Hlen, Hperm.
  destruct (detail_log_aligned _ _ _ _ _ Hlen Hnd Hperm Hres)
    as (rps & Hl & Hlog & ->).
  exists rps. split_and!; [done|done|]. apply omap_id_fmap.
Qed.

Lemma fetch_all_organizations_spec max_workers organizations t2 schedule w
    out w' log :
  fetch_all_organizations requests_get max_workers organizations t2 schedule w
    = Some (out, w', log) ->
  exists rps,
    length rps = length organizations /\
    log ≡ₚ imap (detail_entry (fun _ => t2)) (zip organizations rps) /\
    out = omap (details_or_none org_info) rps.
Proof.
  unfold fetch_all_organizations.
  destruct (executor _ _ _ _) as [[[results w1] log1]|] eqn:Hex; [|done].
  intros ?. simplify_eq.
  eapply executor_spec in Hex as (Hlen & Hnd & Hperm & Hres);
    [|apply organization_tasks_sound].
  unfold organization_tasks in Hlen, Hperm. rewrite length_map in Hlen, Hperm.
  destruct (detail_log_aligned _ _ _ _ _ Hlen Hnd Hperm Hres)
    as (rps & Hl & Hlog & ->).
  exists rps. split_and!; [done|done|]. apply omap_id_fmap.
Qed.



End StageFacts.

(** ** Runs of the pool exist for every pool size *)

Section SequentialRun.

Context {World R : Type}.
Variable max_workers : nat.
Variable tasks : list (@task World R).
Hypothesis one_worker : (1 <= max_workers)%nat.

Lemma pool_run_sequential m : forall k (p : @pool World R),
  running p = ∅ -> next_task p = k -> (k + m <= length tasks)%nat ->
  exists p',
    pool_run max_workers tasks (sequential_from k m) p = Some p' /\
    running p' = ∅ /\ next_task p' = (k + m)%nat.
Proof.
  induction m as [|m IH]; intros k p Hrun Hnext Hle.
  { exists p. simpl. split_and!; [done|done|lia]. }
  destruct (lookup_lt_is_Some_2 tasks k) as [t Ht]; [lia|].
  destruct (t (pool_world p)) as [[r w'] evs] eqn:Ht_run.
  set (p1 := {| next_task := S k; running := running p ∪ {[ k ]};
                futures := futures p; pool_world := pool_world p;
                pool_log := pool_log p |}).
  set (p2 := {| next_task := S k; running := running p1 ∖ {[ k ]};
                futures := <[ k := Some r ]> (futures p); pool_world := w';
                pool_log := pool_log p ++ [(k, evs)] |}).
  assert (Hd : pool_step max_workers tasks Dequeue p = Some p1).
  { unfold pool_step. rewrite Hrun, Hnext, size_empty.
    rewrite !bool_decide_true by lia. simpl. unfold p1. by rewrite Hrun. }
  assert (Hc : pool_step max_workers tasks (Complete k) p1 = Some p2).
  { unfold pool_step.
    rewrite bool_decide_true by (simpl; apply elem_of_union_r, elem_of_singleton_2; done).
    unfold task in *. rewrite Ht. simpl. rewrite Ht_run. done. }
  destruct (IH (S k) p2) as (p' & Hp' & He & Hn).
  - simpl. rewrite Hrun. apply set_eq. intros x. set_unfold. tauto.
  - done.
  - lia.
  - exists p'. split_and!; [|done|lia].
    change (sequential_from k (S m))
      with (Dequeue :: Complete k :: sequential_from (S k) m).
    cbn [pool_run]. rewrite Hd, Hc. exact Hp'.
Qed.

Lemma executor_sequential w :
  is_Some (executor max_workers tasks (sequential (length tasks)) w).
Proof.
  destruct (pool_run_sequential (length tasks) 0 (pool_start tasks w))
    as (p & Hrun & Hempty & Hnext); [done|done|lia|].
  unfold executor, sequential. rewrite Hrun.
  rewrite !bool_decide_true by done. simpl.
  assert (Hinv : pool_inv (length tasks) (fun _ _ _ => True) p).
  { eapply pool_run_inv; [done|by apply pool_start_inv|exact Hrun]. }
  destruct (pool_inv_complete tasks _ p Hinv) as (_ & results & -> & _); [done..|].
  by eexists.
Qed.

End SequentialRun.

Lemma filter_split_length (l : list reply) :
  (length (filter (fun rp => detail_ok rp = true) l)
   + length (filter (fun rp => detail_ok rp = false) l))%nat = length l.
Proof.
  induction l as [|rp l IH]; [done|]. rewrite !filter_cons.
  repeat case_decide; simpl; try congruence; try lia.
  by destruct (detail_ok rp).
Qed.

(** * The detail stages, the credentials and the rows *)

Section StageTheorems.

Context {World : Type}.
Variable requests_get : request -> World -> reply * World.
Variable time_time : World -> Q.
Variable time_sleep : Q -> World -> World.
Variable to_csv : list dict -> string -> World -> World.
Variable pd_read_csv : string -> World -> exn + data_frame.
Variable pandas_strict : bool.

Local Abbreviation fetch_all_users' := (fetch_all_users requests_get).
Local Abbreviation fetch_all_organizations' :=
  (fetch_all_organizations requests_get).
Local Abbreviation analyze := (analyze_users_and_organizations pd_read_csv).
Local Abbreviation main' :=
  (main requests_get time_time time_sleep to_csv pd_read_csv pandas_strict).


(** C5. For every pool size the user stage has runs, one for any pool
    of at least one worker being the sequential one, and every run ends
    with a list of records, whatever the schedule: there is one exchange
    per name of the list, the records returned are those of the exchanges
    that gave a record, and a name whose fetch failed (no connection, an
    HTTP error status, a body that is not a JSON object) contributes
    nothing and takes nothing away: records plus failures make up the
    list. With 10 names of which 3 fail, 7 records are returned. *)
Theorem detail_stage_isolates_failures
    (max_workers : nat) (users : list string)
    (access_token_1 access_token_2 : string) (w : World) :
  ((1 <= max_workers)%nat ->
   is_Some (fetch_all_users' max_workers users access_token_1 access_token_2
              (sequential (length users)) w)) /\
  forall schedule out w' log,
    fetch_all_users' max_workers users access_token_1 access_token_2 schedule w
      = Some (out, w', log) ->
    let replies := stage_replies log in
    length replies = length users /\
    out ≡ₚ omap (details_or_none user_info) replies /\
    length out = length (filter (fun rp => detail_ok rp = true) replies) /\
    (length out + length (filter (fun rp => detail_ok rp = false) replies))%nat
      = length users /\
    (length users = 10%nat ->
     length (filter (fun rp => detail_ok rp = false) replies) = 3%nat ->
     length out = 7%nat).
Proof.
  split.
  - intros Hw. unfold fetch_all_users.
    destruct (executor_sequential max_workers
                (user_tasks requests_get users access_token_1 access_token_2)
                Hw w) as [[[results w1] log] Hex].
    unfold user_tasks in Hex. rewrite length_imap in Hex.
    unfold user_tasks. rewrite Hex. by eexists.
  - intros schedule out w' log Hrun replies.
    apply fetch_all_users_spec in Hrun as (rps & Hlen & Hlog & ->).
    destruct (gets_detail_log _ _ _ _ Hlen Hlog) as [_ Hrep].
    fold replies in Hrep.
    assert (Hn : length replies = length users) by by rewrite Hrep.
    assert (Hout : length (omap (details_or_none user_info) rps)
                   = length (filter (fun rp => detail_ok rp = true) replies)).
    { rewrite Hrep. apply length_omap_details. }
    pose proof (filter_split_length replies) as Hsplit.
    split_and!.
    + done.
    + by rewrite Hrep.
    + done.
    + lia.
    + lia.
Qed.


(** C8. When token_1 or token_2 is not in the environment,
    [load_access_tokens] raises [ValueError] and [main] returns with the
    world as it found it and without a single event: no request is
    sent. *)
Theorem missing_token_aborts_before_any_fetch
    (environ : gmap string string)
    (schedule_users schedule_organizations : list move) (w : World) :
  environ !! "token_1" = None \/ environ !! "token_2" = None ->
  load_access_tokens environ = inl ValueError /\
  main' environ schedule_users schedule_organizations w = Some (w, []).
Proof.
  intros Hmissing.
  assert (Hload : load_access_tokens environ = inl ValueError).
  { unfold load_access_tokens.
    destruct Hmissing as [-> | ->]; simpl; [done|].
    by rewrite orb_true_r. }
  split; [done|]. unfold main. by rewrite Hload.
Qed.

(** C9. Every row that [save_repositories_to_csv] hands to the table
    writer carries a default where the record has no value: 0 under
    'Stars Count' when 'stargazers_count' is missing and 'N/A' under
    'Description' when 'description' is missing. The rows written are the
    rows of the records, one per record in order, and a record whose
    'owner' is missing or a dict and whose 'topics' is missing or a list
    of strings always gives a row. *)
Theorem missing_fields_get_defaults
    (repositories : list json) (records : list dict)
    (output_file : string) (w : World) :
  repository_records repositories = inr records ->
  Forall2 (fun repo row =>
             exists d, repo = JObj d /\
               repository_record repo = inr row /\
               (dict_lookup d "stargazers_count" = None ->
                dict_lookup row "Stars Count" = Some (JInt 0)) /\
               (dict_lookup d "description" = None ->
                dict_lookup row "Description" = Some (JStr "N/A")))
          repositories records /\
  (repositories <> [] ->
   save_repositories_to_csv to_csv repositories output_file w
     = to_csv records output_file w) /\
  (forall d,
      (dict_lookup d "owner" = None \/
       exists o, dict_lookup d "owner" = Some (JObj o)) ->
      (dict_lookup d "topics" = None \/
       exists l, dict_lookup d "topics" = Some (JArr (map JStr l))) ->
      exists row, repository_record (JObj d) = inr row).
Proof.
  intros Hrecords. split_and!.
  - revert records Hrecords.
    induction repositories as [|repo rest IH]; intros records Hrecords;
      simpl in Hrecords.
    { simplify_eq. constructor. }
    destruct (repository_record repo) as [e|row] eqn:Hrow; [done|].
    destruct (repository_records rest) as [e|rows]; [done|].
    simplify_eq. constructor; [|by apply IH].
    destruct repo as [| | | | |d]; try done. exists d.
    pose proof Hrow as Hrow'.
    unfold repository_record in Hrow.
    destruct (owner_get d "login"); [done|].
    destruct (owner_get d "html_url"); [done|].
    destruct (owner_get d "type"); [done|].
    destruct (join_topics _); [done|].
    simplify_eq. split_and!; [done|done| |].
    + intros Hmiss. simpl. unfold dict_get. by rewrite Hmiss.
    + intros Hmiss. simpl. unfold dict_get. by rewrite Hmiss.
  - intros Hne. unfold save_repositories_to_csv. rewrite Hrecords.
    by destruct repositories.
  - intros d Howner Htopics.
    assert (Ho : forall field, exists v, owner_get d field = inr v).
    { intros field. unfold owner_get, dict_get.
      destruct Howner as [-> | (o & ->)]; simpl; eauto. }
    assert (Ht : exists v, join_topics (dict_get d "topics" (JArr [])) = inr v).
    { unfold dict_get. destruct Htopics as [-> | (l & ->)]; simpl; [eauto|].
      assert (all_strings (map JStr l) = inr l) as ->; [|eauto].
      induction l as [|x l IHl]; [done|]. simpl. by rewrite IHl. }
    unfold repository_record.
    destruct (Ho "login") as (v1 & ->). destruct (Ho "html_url") as (v2 & ->).
    destruct (Ho "type") as (v3 & ->). destruct Ht as (v4 & ->). eauto.
Qed.

End StageTheorems.

(** * Concrete runs on the simulated world *)

(** A reset time equal to the clock reading: the collector sleeps one
    second, not zero. *)
Lemma reset_at_now_waits_one_second :
  (inject_Z 100 <= Sim.time_time 100)%Q /\
  exists d,
    handle_rate_limiting Sim.time_time Sim.time_sleep
      (Sim.exhausted_headers 100) 100%Q
    = (Next, Sim.time_sleep d 100%Q, [EvTime 100%Q; EvSleep d]) /\
    (d == 1)%Q /\ ~ (d == 0)%Q.
Proof.
  split; [done|]. exists (quota_wait 100 100). split_and!; done.
Qed.

(** A reset 30 seconds ahead: the collector sleeps 31 seconds. *)
Lemma reset_in_thirty_seconds_waits_thirty_one :
  (Sim.time_time 100 < inject_Z 130)%Q /\
  (Qmax (inject_Z 130 - Sim.time_time 100 + 1) 0 == 31)%Q.
Proof.
  split; [done|].
  destruct (quota_wait_is_floored_reset_distance Sim.time_time Sim.time_sleep
              (Sim.exhausted_headers 130) 100%Q 130 eq_refl eq_refl)
    as (_ & _ & _ & _ & Hfuture).
  rewrite Hfuture; done.
Defined.

(** Two queries, the second page of the first refused: the first page of
    "a" is kept, "b" is requested in full, and nothing is asked of "a"
    after the refusal. *)
Example second_page_failure_keeps_first_and_goes_on :
  let '(res, _, evs) := Sim.scrape Sim.api_search ["a"; "b"] "T" 3 100%Q in
  res = inr [Sim.repo "a1"; Sim.repo "b"; Sim.repo "b"] /\
  (gets evs).*1 =
    first_pages "T" "a" 2 ++ first_pages "T" "b" 3.
Proof. vm_compute. done. Qed.

(** The refusal carried an exhausted quota and a reset time, and the next
    request followed with no wait in between. *)
Lemma refused_page_is_followed_by_the_next_request :
  let evs := (Sim.scrape Sim.api_search ["a"; "b"] "T" 3 100%Q).2 in
  exists pre rq r post,
    evs = pre ++ EvGet rq (Reply r) :: post /\
    raise_for_status r = inl HTTPError /\
    int_header (x_ratelimit_remaining (headers r)) = inr 0 /\
    int_header (x_ratelimit_reset (headers r)) = inr 130 /\
    (exists rq' rp' post', post = EvGet rq' rp' :: post') /\
    ~ (exists now post',
          post = EvTime now :: EvSleep (quota_wait 130 now) :: post').
Proof.
  eexists [_], _, _, _. split_and!.
  - vm_compute. reflexivity.
  - done.
  - done.
  - done.
  - by eexists _, _, _.
  - intros (now & post' & Heq). discriminate Heq.
Qed.

(** A page accepted with the last unit of quota: the clock is read and
    the wait precedes whatever comes next. *)
Lemma last_unit_of_quota_is_followed_by_the_wait :
  let rq := search_request "T" "c" 1 in
  let rp := Sim.last_unit_page 130 [Sim.repo "c"] in
  (Sim.scrape Sim.api_search ["c"] "T" 1 100%Q).2
    = [] ++ EvGet rq rp :: [EvTime 100%Q; EvSleep (quota_wait 130 100)] /\
  exists now post',
    [EvTime 100%Q; EvSleep (quota_wait 130 100)]
    = EvTime now :: EvSleep (quota_wait 130 now) :: post'.
Proof.
  assert (Hrun : (Sim.scrape Sim.api_search ["c"] "T" 1 100%Q).2
                 = [] ++ EvGet (search_request "T" "c" 1)
                               (Sim.last_unit_page 130 [Sim.repo "c"])
                         :: [EvTime 100%Q; EvSleep (quota_wait 130 100)]).
  { vm_compute. reflexivity. }
  split; [exact Hrun|].
  destruct (quota_inspected_after_accepted_pages
              (Sim.requests_get Sim.api_search) Sim.time_time Sim.time_sleep
              ["c"] "T" 1 100%Q [] _ _ _ Hrun) as [Haccepted _].
  exact (Haccepted _ [Sim.repo "c"] eq_refl eq_refl).
Defined.

(** An empty second page of "b": the accumulator is untouched and the
    loop goes on to page 3. *)
Lemma empty_second_page_goes_on_to_the_third :
  let s := {| world := 100%Q; repositories_list := [Sim.repo "b"] |} in
  Sim.requests_get Sim.api_search (search_request "T" "b" 2) (world s)
    = (Sim.ok_page [], 100%Q) /\
  page_items (Sim.ok_page []) = [] /\
  fetch_failed (Sim.ok_page []) = false.
Proof.
  split; [reflexivity|].
  destruct (empty_page_continues
              (Sim.requests_get Sim.api_search) Sim.time_time Sim.time_sleep
              "T" "b" 2 [3]
              {| world := 100%Q; repositories_list := [Sim.repo "b"] |}
              {| status_code := 200; headers := Sim.ok_headers;
                 body := Some (JObj [("total_count", JInt 3);
                                     ("items", JArr [])]) |}
              100%Q [("total_count", JInt 3); ("items", JArr [])]
              eq_refl eq_refl eq_refl eq_refl)
    as (w2 & evs & _ & _ & Hitems & Hfailed & _).
  split; [exact Hitems|exact Hfailed].
Defined.

Example empty_page_run :
  let '(res, _, evs) := Sim.scrape Sim.api_search ["b"] "T" 3 100%Q in
  res = inr [Sim.repo "b"; Sim.repo "b"] /\
  (gets evs).*1 = first_pages "T" "b" 3.
Proof. vm_compute. done. Qed.


(** Ten names of which three fail, on pools of 1, 5 and 100 workers:
    seven records each time. *)
Lemma ten_names_three_failures_seven_records :
  length (Sim.users_run 1 Sim.ten_users (sequential 10)).1.1 = 7%nat /\
  length (Sim.users_run 5 Sim.ten_users (Sim.batched 10 5 0 10)).1.1 = 7%nat /\
  length (Sim.users_run 100 Sim.ten_users (Sim.batched 10 100 0 10)).1.1 = 7%nat.
Proof.
  assert (Hrun : forall max_workers schedule,
             is_Some (Sim.all_users Sim.api_users max_workers Sim.ten_users
                        "T1" "T2" schedule 0%Q) ->
             Sim.all_users Sim.api_users max_workers Sim.ten_users
               "T1" "T2" schedule 0%Q
             = Some ((Sim.users_run max_workers Sim.ten_users schedule).1.1,
                     (Sim.users_run max_workers Sim.ten_users schedule).1.2,
                     (Sim.users_run max_workers Sim.ten_users schedule).2)).
  { intros max_workers schedule [[[out w'] log] Heq].
    unfold Sim.users_run. rewrite Heq. reflexivity. }
  assert (Hseven : forall max_workers schedule,
             is_Some (Sim.all_users Sim.api_users max_workers Sim.ten_users
                        "T1" "T2" schedule 0%Q) ->
             length (filter (fun rp => detail_ok rp = false)
                       (stage_replies
                          (Sim.users_run max_workers Sim.ten_users schedule).2))
             = 3%nat ->
             length (Sim.users_run max_workers Sim.ten_users schedule).1.1
             = 7%nat).
  { intros max_workers schedule Hsome Hthree.
    destruct (detail_stage_isolates_failures
                (Sim.requests_get Sim.api_users)
                max_workers Sim.ten_users "T1" "T2" 0%Q) as [_ Hany].
    destruct (Hany schedule _ _ _ (Hrun max_workers schedule Hsome))
      as (_ & _ & _ & _ & Hten).
    exact (Hten eq_refl Hthree). }
  split_and!; apply Hseven; try (vm_compute; reflexivity);
    vm_compute; eexists; reflexivity.
Defined.

(** Tasks completed in the reverse of their submission: the records still
    come in the order of the list. *)
Lemma reverse_completion_keeps_list_order :
  let names := ["u1"; "down"; "u3"] in
  let '(out, _, log) := Sim.users_run 3 names (Sim.batched 3 3 0 3) in
  log.*1 = [2; 1; 0]%nat /\
  out = [ user_info [("login", JStr "https://api.github.com/users/u1")];
          user_info [("login", JStr "https://api.github.com/users/u3")] ].
Proof. vm_compute. done. Qed.


(** Only token_1 is set: nothing is fetched. *)
Lemma lone_token_stops_main :
  (({[ "token_1" := "abc" ]} : gmap string string) !! "token_2" = None) /\
  load_access_tokens {[ "token_1" := "abc" ]} = inl ValueError /\
  Sim.run_main Sim.api_search {[ "token_1" := "abc" ]} [] [] 0%Q = Some (0%Q, []).
Proof.
  assert (Hmissing : ({[ "token_1" := "abc" ]} : gmap string string) !! "token_1" = None
                     \/ ({[ "token_1" := "abc" ]} : gmap string string) !! "token_2" = None).
  { right. vm_compute. reflexivity. }
  split; [vm_compute; reflexivity|].
  exact (missing_token_aborts_before_any_fetch
           (Sim.requests_get Sim.api_search) Sim.time_time Sim.time_sleep
           Sim.to_csv Sim.pd_read_csv Sim.pandas_strict
           {[ "token_1" := "abc" ]} [] [] 0%Q Hmissing).
Defined.

Example both_tokens_load :
  load_access_tokens (<[ "token_2" := "def" ]> {[ "token_1" := "abc" ]})
  = inr ("abc", "def").
Proof. vm_compute. reflexivity. Qed.

(** A record with a name only. *)
Lemma bare_record_row_is_written :
  repository_records [Sim.repo "r"] = inr (Sim.rows_of [Sim.repo "r"]) /\
  save_repositories_to_csv Sim.to_csv [Sim.repo "r"] "repositories_data.csv" 0%Q
  = Sim.to_csv (Sim.rows_of [Sim.repo "r"]) "repositories_data.csv" 0%Q.
Proof.
  assert (Hrows : repository_records [Sim.repo "r"]
                  = inr (Sim.rows_of [Sim.repo "r"])) by reflexivity.
  split; [exact Hrows|].
  destruct (missing_fields_get_defaults Sim.to_csv
              [Sim.repo "r"] (Sim.rows_of [Sim.repo "r"])
              "repositories_data.csv" 0%Q Hrows) as (_ & Hsave & _).
  apply Hsave. discriminate.
Defined.

Example bare_record_defaults :
  match Sim.rows_of [Sim.repo "r"] with
  | [row] =>
      dict_lookup row "Stars Count" = Some (JInt 0) /\
      dict_lookup row "Description" = Some (JStr "N/A") /\
      dict_lookup row "Repository Name" = Some (JStr "r")
  | _ => False
  end.
Proof. vm_compute. done. Qed.

(** * More on the collector *)

Lemma page_signal_raise_kind rp e :
  page_signal rp = Raise e ->
  e = AttributeError \/ e = TypeError \/ e = ValueError.
Proof.
  destruct rp as [|r]; [done|].
  unfold page_signal, try_body, response_json, json_get, quota_signal, on_exception.
  destruct (raise_for_status r) as [e0|u] eqn:Hs.
  { apply raise_for_status_inl in Hs as [-> _]. done. }
  destruct (body r) as [data|]; [|done].
  destruct data as [| | | | |d]; simpl; try (intros ?; simplify_eq; by left).
  destruct (truthy _).
  - destruct (dict_get d "items" (JArr [])); simpl;
      try (intros ?; simplify_eq; by right; left);
      unfold int_header; repeat case_match; intros ?; simplify_eq; by right; right.
  - unfold int_header; repeat case_match; intros ?; simplify_eq; by right; right.
Qed.

Lemma paced_no_gets evs : paced evs -> gets evs = [] -> evs = [].
Proof. by destruct 1. Qed.

Lemma paced_sleeps evs :
  paced evs ->
  Forall sleep_nonneg evs /\
  (length (filter (fun e => is_sleep e = true) evs) <= length (gets evs))%nat.
Proof.
  induction 1 as [|rq rp rest Hw Hrest [IH1 IH2]|rq rp rt now rest Hw Hrest [IH1 IH2]].
  - split; [constructor|done].
  - split; [by constructor|].
    rewrite filter_cons_False by done. simpl. lia.
  - split.
    + repeat constructor; [apply quota_wait_nonneg|done].
    + rewrite filter_cons_False, filter_cons_False, filter_cons_True by done.
      simpl. lia.
Qed.


Section CollectorMore.

Context {World : Type}.
Variable requests_get : request -> World -> reply * World.
Variable time_time : World -> Q.
Variable time_sleep : Q -> World -> World.

Local Abbreviation handle_rate_limiting' :=
  (handle_rate_limiting time_time time_sleep).
Local Abbreviation page_body' := (page_body requests_get time_time time_sleep).
Local Abbreviation pages_loop' := (pages_loop requests_get time_time time_sleep).
Local Abbreviation queries_loop' := (queries_loop requests_get time_time time_sleep).
Local Abbreviation scrape :=
  (scrape_github_repositories requests_get time_time time_sleep).

(** X2. A run never sends more than [len(search_queries) * pages]
    requests, and with [pages] at most 0 it sends none, sleeps never and
    returns the empty list. *)
Theorem requests_within_budget
    (search_queries : list string) (access_token : string) (pages : Z) (w : World) :
  let '(res, w', evs) := scrape search_queries access_token pages w in
  (length (gets evs) <= length search_queries * Z.to_nat pages)%nat /\
  (pages <= 0 -> res = inr [] /\ evs = []).
Proof.
  destruct (scrape search_queries access_token pages w) as [[res w'] evs] eqn:Hrun.
  apply scrape_spec in Hrun as (segs & sg & Hshape & Hgets & Hpaced & Hres).
  pose proof (queries_shape_budget _ _ _ _ _ Hshape) as Hb.
  rewrite <- Hgets in Hb. split; [done|].
  intros Hp. assert (Hnil : gets evs = []).
  { apply length_zero_iff_nil. replace (Z.to_nat pages) with 0%nat in Hb by lia. lia. }
  split; [|by apply paced_no_gets].
  destruct sg as [| |e].
  - by rewrite Hres, Hnil.
  - by rewrite Hres, Hnil.
  - apply queries_shape_raise in Hshape as (rq & rp & Hin & _).
    rewrite <- Hgets, Hnil in Hin. by apply elem_of_nil in Hin.
Qed.

(** X4. [time.sleep] is never called with a negative duration, and a
    run sleeps at most once per request. *)
Theorem sleeps_are_never_negative
    (search_queries : list string) (access_token : string) (pages : Z) (w : World) :
  let evs := (scrape search_queries access_token pages w).2 in
  Forall sleep_nonneg evs /\
  (length (filter (fun e => is_sleep e = true) evs) <= length (gets evs))%nat.
Proof.
  destruct (scrape search_queries access_token pages w) as [[res w'] evs] eqn:Hrun.
  apply scrape_spec in Hrun as (segs & sg & _ & _ & Hpaced & _).
  simpl. by apply paced_sleeps.
Qed.

(** X5. The faults the handler does not catch end the whole
    collection at the request that met them. On a response without an
    error status, a JSON body that is not an object raises
    [AttributeError], 'items' holding a number other than 0 or [true]
    raises [TypeError], and after a page that was taken in a rate-limit
    header that is not a number raises [ValueError] (the reset header only
    when the remaining quota reads 0): the exception leaves the collector,
    no result is returned and no request follows. What leaves the
    collector is never of the [RequestException] family, which the handler
    catches. *)
Theorem uncaught_faults_end_the_collection
    (search_queries : list string) (access_token : string) (pages : Z) (w : World) :
  let '(res, _, evs) := scrape search_queries access_token pages w in
  (forall e, res = inl e -> is_request_exception e = false) /\
  (forall i rq r,
      gets evs !! i = Some (rq, Reply r) ->
      (400 <=? status_code r) && (status_code r <? 600) = false ->
      (forall j, body r = Some j -> (forall d, j <> JObj d) ->
         res = inl AttributeError /\ S i = length (gets evs)) /\
      (forall d z, body r = Some (JObj d) ->
         dict_lookup d "items" = Some (JInt z) -> z <> 0 ->
         res = inl TypeError /\ S i = length (gets evs)) /\
      (forall d, body r = Some (JObj d) ->
         dict_lookup d "items" = Some (JBool true) ->
         res = inl TypeError /\ S i = length (gets evs)) /\
      (forall d xs, body r = Some (JObj d) ->
         dict_get d "items" (JArr []) = JArr xs ->
         x_ratelimit_remaining (headers r) = Malformed ->
         res = inl ValueError /\ S i = length (gets evs)) /\
      (forall d xs, body r = Some (JObj d) ->
         dict_get d "items" (JArr []) = JArr xs ->
         int_header (x_ratelimit_remaining (headers r)) = inr 0 ->
         x_ratelimit_reset (headers r) = Malformed ->
         res = inl ValueError /\ S i = length (gets evs))).
Proof.
  destruct (scrape search_queries access_token pages w) as [[res w'] evs] eqn:Hrun.
  apply scrape_spec in Hrun as (segs & sg & Hshape & Hgets & _ & Hres).
  split.
  { intros e ->. destruct sg as [| |e']; [done|done|]. simplify_eq.
    apply queries_shape_raise in Hshape as (rq & rp & _ & Hr).
    apply page_signal_raise_kind in Hr. destruct Hr as [->|[->| ->]]; done. }
  intros i rq r Hi Hstatus.
  assert (Hraise : forall e, page_signal (Reply r) = Raise e ->
                             res = inl e /\ S i = length (gets evs)).
  { intros e Hr. rewrite Hgets in *.
    destruct (queries_shape_raise_at _ _ _ _ _ _ _ _ _ Hshape Hi Hr) as [-> Hlen].
    done. }
  assert (Htry : forall d xs, body r = Some (JObj d) ->
                   dict_get d "items" (JArr []) = JArr xs ->
                   exists acc, try_body r [] = inr acc).
  { intros d xs Hbody Hitems. unfold try_body, raise_for_status, response_json.
    rewrite Hstatus, Hbody. simpl. rewrite Hitems. destruct xs; simpl; eauto. }
  split_and!.
  - intros j Hbody Hj. apply Hraise.
    unfold page_signal, try_body, raise_for_status, response_json.
    rewrite Hstatus, Hbody. destruct j; try done. by destruct (Hj kvs).
  - intros d z Hbody Hitems Hz. apply Hraise.
    unfold page_signal, try_body, raise_for_status, response_json.
    rewrite Hstatus, Hbody. simpl. unfold dict_get. rewrite Hitems. simpl.
    by rewrite (proj2 (Z.eqb_neq _ _) Hz).
  - intros d Hbody Hitems. apply Hraise.
    unfold page_signal, try_body, raise_for_status, response_json.
    rewrite Hstatus, Hbody. simpl. unfold dict_get. by rewrite Hitems.
  - intros d xs Hbody Hitems Hrem. apply Hraise.
    destruct (Htry d xs Hbody Hitems) as [acc Hacc].
    unfold page_signal, quota_signal. by rewrite Hacc, Hrem.
  - intros d xs Hbody Hitems Hrem Hreset. apply Hraise.
    destruct (Htry d xs Hbody Hitems) as [acc Hacc].
    unfold page_signal, quota_signal. by rewrite Hacc, Hrem, Hreset.
Qed.


End CollectorMore.

Section CollectorCompose.

Context {World : Type}.
Variable requests_get : request -> World -> reply * World.
Variable time_time : World -> Q.
Variable time_sleep : Q -> World -> World.

Local Abbreviation handle_rate_limiting' :=
  (handle_rate_limiting time_time time_sleep).
Local Abbreviation page_body' := (page_body requests_get time_time time_sleep).
Local Abbreviation pages_loop' := (pages_loop requests_get time_time time_sleep).
Local Abbreviation queries_loop' := (queries_loop requests_get time_time time_sleep).
Local Abbreviation scrape :=
  (scrape_github_repositories requests_get time_time time_sleep).

(** The accumulator is only ever appended to: a loop started from [acc]
    does what it does from the empty list, with [acc] in front. *)
Lemma page_body_acc tok q p w acc :
  page_body' tok q p {| world := w; repositories_list := acc |} =
  let '(sg, s, evs) := page_body' tok q p {| world := w; repositories_list := [] |} in
  (sg, {| world := world s; repositories_list := acc ++ repositories_list s |}, evs).
Proof.
  unfold page_body. simpl.
  destruct (requests_get (search_request tok q p) w) as [rp w1].
  destruct rp as [|r]; simpl; [by rewrite app_nil_r|].
  rewrite try_body_acc. destruct (try_body r []) as [e|l]; simpl.
  - by rewrite app_nil_r.
  - by destruct (handle_rate_limiting' (headers r) w1) as [[sg w2] evs].
Qed.

Lemma pages_loop_acc tok q ps : forall w acc,
  pages_loop' tok q ps {| world := w; repositories_list := acc |} =
  let '(sg, s, evs) := pages_loop' tok q ps {| world := w; repositories_list := [] |} in
  (sg, {| world := world s; repositories_list := acc ++ repositories_list s |}, evs).
Proof.
  induction ps as [|p ps IH]; intros w acc; simpl; [by rewrite app_nil_r|].
  rewrite (page_body_acc tok q p w acc).
  destruct (page_body' tok q p {| world := w; repositories_list := [] |})
    as [[sg [w1 l1]] evs1]. simpl.
  destruct sg as [| |e]; [|done|done].
  rewrite (IH w1 (acc ++ l1)), (IH w1 l1).
  destruct (pages_loop' tok q ps {| world := w1; repositories_list := [] |})
    as [[sg2 [w2 l2]] evs2]. simpl. by rewrite app_assoc.
Qed.

Lemma queries_loop_acc tok pages qs : forall w acc,
  queries_loop' tok qs pages {| world := w; repositories_list := acc |} =
  let '(sg, s, evs) :=
    queries_loop' tok qs pages {| world := w; repositories_list := [] |} in
  (sg, {| world := world s; repositories_list := acc ++ repositories_list s |}, evs).
Proof.
  induction qs as [|q qs IH]; intros w acc; simpl; [by rewrite app_nil_r|].
  rewrite (pages_loop_acc tok q _ w acc).
  destruct (pages_loop' tok q _ {| world := w; repositories_list := [] |})
    as [[sg [w1 l1]] evs1]. simpl.
  assert (Hgo :
    (let '(sg0, s2, evs2) :=
       queries_loop' tok qs pages {| world := w1; repositories_list := acc ++ l1 |} in
     (sg0, s2, evs1 ++ evs2)) =
    (let '(sg0, s0, evs) :=
       (let '(sg0, s2, evs2) :=
          queries_loop' tok qs pages {| world := w1; repositories_list := l1 |} in
        (sg0, s2, evs1 ++ evs2)) in
     (sg0, {| world := world s0; repositories_list := acc ++ repositories_list s0 |},
      evs))).
  { rewrite (IH w1 (acc ++ l1)), (IH w1 l1).
    destruct (queries_loop' tok qs pages {| world := w1; repositories_list := [] |})
      as [[sg2 [w2 l2]] evs2]. simpl. by rewrite app_assoc. }
  destruct sg as [| |e]; [exact Hgo|exact Hgo|done].
Qed.

Lemma queries_loop_app tok pages qs1 qs2 : forall s,
  queries_loop' tok (qs1 ++ qs2) pages s =
  match queries_loop' tok qs1 pages s with
  | (Raise e, s1, evs1) => (Raise e, s1, evs1)
  | (_, s1, evs1) =>
      let '(sg2, s2, evs2) := queries_loop' tok qs2 pages s1 in
      (sg2, s2, evs1 ++ evs2)
  end.
Proof.
  induction qs1 as [|q qs1 IH]; intros s; simpl.
  { by destruct (queries_loop' tok qs2 pages s) as [[sg2 s2] evs2]. }
  destruct (pages_loop' tok q _ s) as [[sg1 s1] evs1].
  assert (Hgo :
    (let '(sg, s2, evs2) := queries_loop' tok (qs1 ++ qs2) pages s1 in
     (sg, s2, evs1 ++ evs2)) =
    match (let '(sg, s2, evs2) := queries_loop' tok qs1 pages s1 in
           (sg, s2, evs1 ++ evs2)) with
    | (Raise e, s3, evs3) => (Raise e, s3, evs3)
    | (_, s3, evs3) =>
        let '(sg2, s2, evs2) := queries_loop' tok qs2 pages s3 in
        (sg2, s2, evs3 ++ evs2)
    end).
  { rewrite IH.
    destruct (queries_loop' tok qs1 pages s1) as [[sg s3] evs3].
    destruct sg as [| |e]; [| |done];
      destruct (queries_loop' tok qs2 pages s3) as [[sg2 s2] evs2];
      by rewrite app_assoc. }
  destruct sg1 as [| |e]; [exact Hgo|exact Hgo|done].
Qed.

(** X6. Collecting two lists of queries in one call is collecting the
    first list and then the second from the world the first left: the
    traces follow each other, the results are concatenated, and an
    exception in the first part ends the run there. *)
Theorem scrape_app
    (queries1 queries2 : list string) (access_token : string) (pages : Z) (w : World) :
  scrape (queries1 ++ queries2) access_token pages w =
  let '(res1, w1, evs1) := scrape queries1 access_token pages w in
  match res1 with
  | inl e => (inl e, w1, evs1)
  | inr repositories1 =>
      let '(res2, w2, evs2) := scrape queries2 access_token pages w1 in
      (match res2 with
       | inl e => inl e
       | inr repositories2 => inr (repositories1 ++ repositories2)
       end, w2, evs1 ++ evs2)
  end.
Proof.
  unfold scrape_github_repositories. rewrite queries_loop_app.
  destruct (queries_loop' access_token queries1 pages _) as [[sg1 [w1 l1]] evs1].
  simpl.
  assert (Hgo :
    (let '(sg, s, evs) :=
       (let '(sg2, s2, evs2) :=
          queries_loop' access_token queries2 pages
            {| world := w1; repositories_list := l1 |} in
        (sg2, s2, evs1 ++ evs2)) in
     match sg with
     | Raise e => (inl e, world s, evs)
     | _ => (inr (repositories_list s), world s, evs)
     end) =
    (let '(res2, w2, evs2) :=
       (let '(sg, s, evs) :=
          queries_loop' access_token queries2 pages
            {| world := w1; repositories_list := [] |} in
        match sg with
        | Raise e => (inl e, world s, evs)
        | _ => (inr (repositories_list s), world s, evs)
        end) in
     (match res2 with
      | inl e => inl e
      | inr repositories2 => inr (l1 ++ repositories2)
      end, w2, evs1 ++ evs2))).
  { rewrite (queries_loop_acc access_token pages queries2 w1 l1).
    destruct (queries_loop' access_token queries2 pages
                {| world := w1; repositories_list := [] |}) as [[sg2 [w2 l2]] evs2].
    simpl. by destruct sg2. }
  destruct sg1 as [| |e]; [exact Hgo|exact Hgo|done].
Qed.

(** A server whose reply is a function of the request and never reports
    an exhausted quota. *)
Variable api : request -> reply.
Hypothesis stateless : forall rq w, (requests_get rq w).1 = api rq.
Hypothesis quota_left : forall rq r,
  api rq = Reply r ->
  exists z, x_ratelimit_remaining (headers r) = Numeric z /\ z <> 0.

Lemma quota_left_no_wait rq : wait_due (api rq) = None.
Proof.
  unfold wait_due. destruct (api rq) as [|r] eqn:Hrp; [done|].
  destruct (try_body r []); [done|].
  destruct (quota_left rq r Hrp) as (z & Hz & Hne).
  unfold quota_reset. rewrite Hz. simpl.
  rewrite (proj2 (Z.eqb_neq _ _) Hne). by destruct (int_header _).
Qed.

Lemma page_body_stateless tok q p s :
  exists w2,
    page_body' tok q p s =
    (page_signal (api (search_request tok q p)),
     {| world := w2;
        repositories_list :=
          repositories_list s ++ page_items (api (search_request tok q p)) |},
     [EvGet (search_request tok q p) (api (search_request tok q p))]).
Proof.
  destruct (page_body_spec requests_get time_time time_sleep tok q p s)
    as (rp & w1 & w2 & Hget & Hpage).
  assert (rp = api (search_request tok q p)) as ->.
  { by rewrite <- (stateless (search_request tok q p) (world s)), Hget. }
  exists w2. rewrite Hpage. unfold page_trace. by rewrite quota_left_no_wait.
Qed.

Lemma pages_loop_stateless tok q ps : forall s s',
  repositories_list s = repositories_list s' ->
  let '(sg, s1, evs) := pages_loop' tok q ps s in
  let '(sg', s1', evs') := pages_loop' tok q ps s' in
  sg = sg' /\ repositories_list s1 = repositories_list s1' /\ evs = evs' /\
  Forall (fun e => exists rq, e = EvGet rq (api rq)) evs.
Proof.
  induction ps as [|p ps IH]; intros s s' Hacc; simpl; [done|].
  destruct (page_body_stateless tok q p s) as [w2 ->].
  destruct (page_body_stateless tok q p s') as [w2' ->].
  rewrite Hacc.
  set (rq := search_request tok q p).
  assert (Hev : exists rq0, EvGet rq (api rq) = EvGet rq0 (api rq0)) by by exists rq.
  destruct (page_signal (api rq)) as [| |e].
  - specialize (IH {| world := w2;
                      repositories_list := repositories_list s' ++ page_items (api rq) |}
                   {| world := w2';
                      repositories_list := repositories_list s' ++ page_items (api rq) |}
                   eq_refl).
    destruct (pages_loop' tok q ps _) as [[sg1 s1] evs1].
    destruct (pages_loop' tok q ps _) as [[sg1' s1'] evs1'].
    destruct IH as (-> & -> & -> & Hall). split_and!; try done.
    by constructor.
  - split_and!; try done. by repeat constructor.
  - split_and!; try done. by repeat constructor.
Qed.

Lemma queries_loop_stateless tok pages qs : forall s s',
  repositories_list s = repositories_list s' ->
  let '(sg, s1, evs) := queries_loop' tok qs pages s in
  let '(sg', s1', evs') := queries_loop' tok qs pages s' in
  sg = sg' /\ repositories_list s1 = repositories_list s1' /\ evs = evs' /\
  Forall (fun e => exists rq, e = EvGet rq (api rq)) evs.
Proof.
  induction qs as [|q qs IH]; intros s s' Hacc; simpl; [done|].
  pose proof (pages_loop_stateless tok q (py_range 1 (pages + 1)) s s' Hacc) as Hp.
  destruct (pages_loop' tok q _ s) as [[sg1 s1] evs1].
  destruct (pages_loop' tok q _ s') as [[sg1' s1'] evs1'].
  destruct Hp as (<- & Hacc1 & <- & Hall1).
  assert (Hgo :
    let '(sg, s2, evs) :=
      (let '(sg2, s2, evs2) := queries_loop' tok qs pages s1 in
       (sg2, s2, evs1 ++ evs2)) in
    let '(sg', s2', evs') :=
      (let '(sg2, s2, evs2) := queries_loop' tok qs pages s1' in
       (sg2, s2, evs1 ++ evs2)) in
    sg = sg' /\ repositories_list s2 = repositories_list s2' /\ evs = evs' /\
    Forall (fun e => exists rq, e = EvGet rq (api rq)) evs).
  { specialize (IH s1 s1' Hacc1).
    destruct (queries_loop' tok qs pages s1) as [[sg2 s2] evs2].
    destruct (queries_loop' tok qs pages s1') as [[sg2' s2'] evs2'].
    destruct IH as (-> & -> & -> & Hall2). split_and!; try done.
    by apply Forall_app. }
  destruct sg1 as [| |e]; [exact Hgo|exact Hgo|done].
Qed.

(** X7. On a server whose reply depends on the request alone and which
    never reports an exhausted quota, a run of the collector does not
    depend on the world it starts from: two runs return the same result
    and have the same trace, which holds nothing but requests with the
    replies of the server, no clock reading and no sleep. *)
Theorem stateless_run_ignores_the_world
    (search_queries : list string) (access_token : string) (pages : Z)
    (w w' : World) :
  (scrape search_queries access_token pages w).1.1
    = (scrape search_queries access_token pages w').1.1 /\
  (scrape search_queries access_token pages w).2
    = (scrape search_queries access_token pages w').2 /\
  Forall (fun e => exists rq, e = EvGet rq (api rq))
         (scrape search_queries access_token pages w).2.
Proof.
  unfold scrape_github_repositories.
  pose proof (queries_loop_stateless access_token pages search_queries
                {| world := w; repositories_list := [] |}
                {| world := w'; repositories_list := [] |} eq_refl) as Hq.
  destruct (queries_loop' access_token search_queries pages
              {| world := w; repositories_list := [] |}) as [[sg s] evs].
  destruct (queries_loop' access_token search_queries pages
              {| world := w'; repositories_list := [] |}) as [[sg' s'] evs'].
  destruct Hq as (<- & Hacc & <- & Hall).
  destruct sg; simpl; by rewrite ?Hacc.
Qed.

End CollectorCompose.

(** * More on the tables *)

Lemma repository_records_length repositories : forall records,
  repository_records repositories = inr records ->
  length records = length repositories.
Proof.
  induction repositories as [|repo rest IH]; intros records H; simpl in H.
  { by simplify_eq. }
  destruct (repository_record repo); [done|].
  destruct (repository_records rest) as [e|rows]; [done|].
  simplify_eq. simpl. f_equal. by apply IH.
Qed.

Lemma repository_records_bad repositories :
  Exists (fun repo => exists e, repository_record repo = inl e) repositories ->
  exists e, repository_records repositories = inl e.
Proof.
  induction 1 as [repo rest [e He]|repo rest Hex [e IH]]; simpl.
  - rewrite He. eauto.
  - destruct (repository_record repo); [eauto|]. rewrite IH. eauto.
Qed.

Section TableTheorems.

Context {World : Type}.
Variable to_csv : list dict -> string -> World -> World.
Variable pd_read_csv : string -> World -> exn + data_frame.
Variable pandas_strict : bool.

Local Abbreviation analyze := (analyze_users_and_organizations pd_read_csv).

(** X9. The repository table is written whole or not at all: one
    record for which no row can be built leaves the world as it was,
    whatever the other records are; when all rows can be built there is
    one per record. A record that is not a dict, or whose 'owner' is
    null, is such a record. *)
Theorem one_bad_record_voids_the_table
    (repositories : list json) (output_file : string) (w : World) :
  (Exists (fun repo => exists e, repository_record repo = inl e) repositories ->
   save_repositories_to_csv to_csv repositories output_file w = w) /\
  (forall records,
      repository_records repositories = inr records ->
      length records = length repositories) /\
  (forall d, dict_lookup d "owner" = Some JNull ->
             repository_record (JObj d) = inl AttributeError) /\
  (forall repo, (forall d, repo <> JObj d) ->
                repository_record repo = inl AttributeError).
Proof.
  split_and!.
  - intros Hbad. apply repository_records_bad in Hbad as [e He].
    unfold save_repositories_to_csv. rewrite He. by destruct repositories.
  - apply repository_records_length.
  - intros d Hd. unfold repository_record, owner_get, dict_get. rewrite Hd. done.
  - intros repo Hrepo. destruct repo; try done. by destruct (Hrepo kvs).
Qed.

(** X10. A row has the sixteen columns of the table in their fixed
    order, and under each column filled by a plain [get] a value present
    in the record is copied as it is, a null included: the default only
    stands in for a missing key. *)
Theorem repository_row_copies_present_values (d : dict) (row : dict) :
  repository_record (JObj d) = inr row ->
  row.*1 = repository_columns /\
  Forall (fun ck => forall v, dict_lookup d ck.2 = Some v ->
                              dict_lookup row ck.1 = Some v)
         plain_columns.
Proof.
  unfold repository_record.
  destruct (owner_get d "login"); [done|].
  destruct (owner_get d "html_url"); [done|].
  destruct (owner_get d "type"); [done|].
  destruct (join_topics _); [done|].
  intros ?. simplify_eq. split; [done|].
  unfold plain_columns.
  repeat (apply Forall_cons; split;
          [intros v Hv; simpl in Hv; cbn -[dict_get]; unfold dict_get;
           by rewrite Hv|]).
  constructor.
Qed.

(** X11. The users returned are exactly the names of the rows whose
    owner type is 'User', the organizations exactly the names of the rows
    whose owner type is 'Organization', rows without a name left out;
    when the file cannot be read or lacks one of the two columns, both
    lists are empty. *)
Theorem analyze_extracts_owners_by_type (csv_file : string) (w : World) :
  match pd_read_csv csv_file w with
  | inl _ => analyze csv_file w = ([], [])
  | inr df =>
      match df_column df "Owner Type", df_column df "Owner Username" with
      | inr owner_type, inr owner_username =>
          (forall name,
              name ∈ (analyze csv_file w).1 <->
              exists i, owner_type !! i = Some (Cell "User") /\
                        owner_username !! i = Some (Cell name)) /\
          (forall name,
              name ∈ (analyze csv_file w).2 <->
              exists i, owner_type !! i = Some (Cell "Organization") /\
                        owner_username !! i = Some (Cell name))
      | _, _ => analyze csv_file w = ([], [])
      end
  end.
Proof.
  unfold analyze_users_and_organizations.
  destruct (pd_read_csv csv_file w) as [e|df]; [done|].
  destruct (df_column df "Owner Type") as [e|owner_type]; [done|].
  destruct (df_column df "Owner Username") as [e|owner_username]; [done|].
  simpl. split; intros name;
    by rewrite elem_of_unique, elem_of_dropna, elem_of_select_where.
Qed.


End TableTheorems.

(** * More on the detail stages *)

Lemma details_or_none_ok info rp :
  match details_or_none info rp with
  | None => detail_ok rp = false
  | Some record =>
      detail_ok rp = true /\
      exists r data, rp = Reply r /\ body r = Some (JObj data) /\ record = info data
  end.
Proof.
  destruct rp as [|r]; [done|]. unfold details_or_none, try_details, detail_ok.
  destruct (raise_for_status r) as [e|u] eqn:Hs.
  { apply raise_for_status_inl in Hs as [_ ->]. done. }
  apply raise_for_status_inr in Hs as ->. unfold response_json. simpl.
  destruct (body r) as [[| | | | |data]|] eqn:Hb; try done.
  split; [done|]. by exists r, data.
Qed.



Section StageMore.

Context {World : Type}.
Variable requests_get : request -> World -> reply * World.

Local Abbreviation fetch_all_users' := (fetch_all_users requests_get).
Local Abbreviation fetch_all_organizations' :=
  (fetch_all_organizations requests_get).

(** X12. A detail fetcher sends exactly one request, to the users
    address of the name with the token it was given, and returns [None]
    exactly when the fetch gave no record (no connection, an error
    status, a body that is not a JSON object); otherwise it returns the
    record built from the body, with the columns of its table. Both
    fetchers ask the same address. *)
Theorem detail_fetchers_outcome (name token : string) (w : World) :
  let rq := detail_request name token in
  (let '(r, w', evs) := fetch_user_details requests_get name token w in
   exists rp,
     requests_get rq w = (rp, w') /\ evs = [EvGet rq rp] /\
     match r with
     | None => detail_ok rp = false
     | Some record =>
         detail_ok rp = true /\ record.*1 = user_columns /\
         exists r0 data,
           rp = Reply r0 /\ body r0 = Some (JObj data) /\ record = user_info data
     end) /\
  (let '(r, w', evs) := fetch_organization_data requests_get name token w in
   exists rp,
     requests_get rq w = (rp, w') /\ evs = [EvGet rq rp] /\
     match r with
     | None => detail_ok rp = false
     | Some record =>
         detail_ok rp = true /\ record.*1 = organization_columns /\
         exists r0 data,
           rp = Reply r0 /\ body r0 = Some (JObj data) /\ record = org_info data
     end).
Proof.
  unfold fetch_user_details, fetch_organization_data. simpl.
  destruct (requests_get (detail_request name token) w) as [rp w'].
  split; exists rp; (split; [done|]); (split; [done|]).
  - pose proof (details_or_none_ok user_info rp) as H.
    destruct (details_or_none user_info rp); [|done].
    destruct H as (Hok & r0 & data & -> & Hb & ->). eauto 10.
  - pose proof (details_or_none_ok org_info rp) as H.
    destruct (details_or_none org_info rp); [|done].
    destruct H as (Hok & r0 & data & -> & Hb & ->). eauto 10.
Qed.


(** A server whose reply is a function of the request. *)
Variable api : request -> reply.
Hypothesis stateless : forall rq w, (requests_get rq w).1 = api rq.





End StageMore.

(** * More on credentials, the rate limit and [main] *)

(** X1. The tokens load exactly when both variables are set and not
    empty, an empty value counting as missing; the only error the loader
    raises is [ValueError]. *)
Theorem tokens_load_iff_both_set_and_non_empty
    (environ : gmap string string) (t1 t2 : string) :
  (load_access_tokens environ = inr (t1, t2) <->
   environ !! "token_1" = Some t1 /\ environ !! "token_2" = Some t2 /\
   t1 <> EmptyString /\ t2 <> EmptyString) /\
  (forall e, load_access_tokens environ = inl e -> e = ValueError).
Proof.
  unfold load_access_tokens, not_token.
  destruct (environ !! "token_1") as [v1|]; simpl;
    [|split; [split; [done|by intros (? & _)]|by intros e ?; simplify_eq]].
  destruct (environ !! "token_2") as [v2|]; simpl;
    [|rewrite orb_true_r;
      split; [split; [done|by intros (_ & ? & _)]|by intros e ?; simplify_eq]].
  destruct (String.eqb_spec v1 EmptyString) as [->|H1]; simpl.
  { split; [split; [done|]|by intros e ?; simplify_eq].
    intros (? & _ & ? & _). by simplify_eq. }
  destruct (String.eqb_spec v2 EmptyString) as [->|H2]; simpl.
  { split; [split; [done|]|by intros e ?; simplify_eq].
    intros (_ & ? & _ & ?). by simplify_eq. }
  split; [split|done].
  - intros ?. by simplify_eq.
  - intros (? & ? & _). by simplify_eq.
Qed.

Section MainMore.

Context {World : Type}.
Variable requests_get : request -> World -> reply * World.
Variable time_time : World -> Q.
Variable time_sleep : Q -> World -> World.
Variable to_csv : list dict -> string -> World -> World.
Variable pd_read_csv : string -> World -> exn + data_frame.
Variable pandas_strict : bool.

Local Abbreviation handle_rate_limiting' :=
  (handle_rate_limiting time_time time_sleep).
Local Abbreviation scrape :=
  (scrape_github_repositories requests_get time_time time_sleep).
Local Abbreviation analyze := (analyze_users_and_organizations pd_read_csv).
Local Abbreviation main' :=
  (main requests_get time_time time_sleep to_csv pd_read_csv pandas_strict).

(** X8. The rate-limit lines at the edges: with quota left nothing
    happens and the reset header is not even parsed; a response without
    the two headers is read as an exhausted quota with reset time 0, so
    the clock is read and the sleep is [max(1 - now, 0)], which is 0 for
    any clock from 1 on; a remaining header that is not a number raises
    [ValueError], and so does a reset header that is not a number when
    the remaining quota reads 0, with no sleep. *)
Theorem rate_limit_header_edges (h : rate_headers) (w : World) :
  (forall remaining,
      int_header (x_ratelimit_remaining h) = inr remaining -> remaining <> 0 ->
      handle_rate_limiting' h w = (Next, w, [])) /\
  (x_ratelimit_remaining h = Absent -> x_ratelimit_reset h = Absent ->
   let now := time_time w in
   let d := Qmax (1 - now) 0 in
   exists d', (d' == d)%Q /\
     handle_rate_limiting' h w = (Next, time_sleep d' w, [EvTime now; EvSleep d']) /\
     ((1 <= now)%Q -> (d' == 0)%Q)) /\
  (x_ratelimit_remaining h = Malformed ->
   handle_rate_limiting' h w = (Raise ValueError, w, [])) /\
  (int_header (x_ratelimit_remaining h) = inr 0 ->
   x_ratelimit_reset h = Malformed ->
   handle_rate_limiting' h w = (Raise ValueError, w, [])).
Proof.
  unfold handle_rate_limiting. split_and!.
  - intros remaining -> Hne. by rewrite (proj2 (Z.eqb_neq _ _) Hne).
  - intros -> ->. simpl. exists (quota_wait 0 (time_time w)). split_and!.
    + unfold quota_wait, sleep_duration.
      apply Q.max_compat; [|reflexivity]. unfold inject_Z. ring.
    + done.
    + intros Hnow. apply quota_wait_elapsed.
      change (inject_Z 0) with 0%Q. lra.
  - by intros ->.
  - by intros -> ->.
Qed.

(** X16. A run of [main] with both tokens is the trace of the collector
    on the ten queries with ten pages and the first token, at most 100
    search requests, followed by detail requests only: each goes to a
    users address with one of the two tokens. When the collector raises,
    nothing follows and the world is the one the collector left. *)
Theorem main_searches_then_fetches_details
    (environ : gmap string string)
    (schedule_users schedule_organizations : list move) (w w' : World)
    (evs : list event) (t1 t2 : string) :
  load_access_tokens environ = inr (t1, t2) ->
  main' environ schedule_users schedule_organizations w = Some (w', evs) ->
  let '(res, w1, evs1) := scrape search_queries t1 10 w in
  exists evs2,
    evs = evs1 ++ evs2 /\
    (length (gets evs1) <= 100)%nat /\
    Forall (fun rq => url rq = search_url /\ authorization rq = "token " +:+ t1)
           (gets evs1).*1 /\
    Forall (fun rq =>
              (exists name, url rq = "https://api.github.com/users/" +:+ name) /\
              url rq <> search_url /\
              (authorization rq = "token " +:+ t1 \/
               authorization rq = "token " +:+ t2))
           (gets evs2).*1 /\
    match res with
    | inl _ => evs2 = [] /\ w' = w1
    | inr _ => True
    end.
Proof.
  intros Hload Hmain. unfold main in Hmain. rewrite Hload in Hmain.
  pose proof (scrape_requests_are_searches requests_get time_time time_sleep
                search_queries t1 10 w) as [Hbudget Hsearch].
  destruct (scrape search_queries t1 10 w) as [[res w1] evs1].
  simpl in Hbudget, Hsearch.
  assert (Hb : (length (gets evs1) <= 100)%nat).
  { etrans; [exact Hbudget|]. done. }
  destruct res as [e|repositories_data].
  { simplify_eq. exists []. rewrite app_nil_r. split_and!; first [done|constructor]. }
  destruct (analyze "repositories_data.csv" _) as [users organizations].
  destruct (fetch_all_users _ _ _ _ _ _ _) as [[[all_users w3] log_u]|] eqn:Hu;
    [|done].
  destruct (fetch_all_organizations _ _ _ _ _ _) as [[[all_orgs w5] log_o]|] eqn:Ho;
    [|done].
  simplify_eq. exists (log_events log_u ++ log_events log_o).
  split_and!; try done.
  rewrite gets_app, fmap_app. apply Forall_app. split.
  - apply fetch_all_users_spec in Hu as (rps & Hlen & Hlog & _).
    destruct (gets_detail_log _ _ _ _ Hlen Hlog) as [Hreq _].
    unfold stage_requests in Hreq. rewrite Hreq. apply Forall_forall.
    intros rq Hin. apply elem_of_lookup_imap_1 in Hin as (i & name & -> & _).
    split_and!; [by exists name|apply detail_request_not_search|].
    unfold token_for. simpl. destruct (i <? 4000)%nat; [by left|by right].
  - apply fetch_all_organizations_spec in Ho as (rps & Hlen & Hlog & _).
    destruct (gets_detail_log _ _ _ _ Hlen Hlog) as [Hreq _].
    unfold stage_requests in Hreq. rewrite Hreq. apply Forall_forall.
    intros rq Hin. apply elem_of_lookup_imap_1 in Hin as (i & name & -> & _).
    split_and!; [by exists name|apply detail_request_not_search|by right].
Qed.

(** A stage with nothing to fetch sends nothing and leaves the world as
    it is. *)
Lemma executor_no_tasks {R : Type} max_workers (schedule : list move) (w : World)
    (results : list R) w' log :
  executor max_workers [] schedule w = Some (results, w', log) ->
  results = [] /\ w' = w /\ log = [].
Proof.
  unfold executor. destruct schedule as [|m schedule]; simpl.
  - rewrite bool_decide_eq_true_2 by done. intros ?. by simplify_eq.
  - assert (pool_step max_workers [] m (pool_start ([] : list (@task World R)) w)
            = None) as ->; [|done].
    destruct m as [|i]; simpl.
    + by rewrite andb_false_r.
    + by case_bool_decide.
Qed.

(** X17. When the repository table cannot be read back in the world the
    collector and the saving of the table have left, [main] sends no
    detail request and writes no detail table: its trace is the trace of
    the collector and it leaves that world as it is. *)
Theorem main_without_table_fetches_no_details
    (environ : gmap string string)
    (schedule_users schedule_organizations : list move) (w w' : World)
    (evs : list event) (t1 t2 : string)
    (repositories_data : list json) (w1 : World) (evs1 : list event) (e : exn) :
  load_access_tokens environ = inr (t1, t2) ->
  scrape search_queries t1 10 w = (inr repositories_data, w1, evs1) ->
  pd_read_csv "repositories_data.csv"
    (save_repositories_to_csv to_csv repositories_data "repositories_data.csv" w1)
    = inl e ->
  main' environ schedule_users schedule_organizations w = Some (w', evs) ->
  evs = evs1 /\
  w' = save_repositories_to_csv to_csv repositories_data "repositories_data.csv" w1.
Proof.
  intros Hload Hscrape Hread Hmain. unfold main in Hmain.
  rewrite Hload, Hscrape in Hmain.
  unfold analyze_users_and_organizations in Hmain. rewrite Hread in Hmain.
  unfold fetch_all_users, fetch_all_organizations in Hmain.
  match type of Hmain with
  | context [executor 100 ?tasks schedule_users ?w2] =>
      destruct (executor 100 tasks schedule_users w2)
        as [[[results_u w3] log_u]|] eqn:Hu; [|done]
  end.
  apply executor_no_tasks in Hu as (-> & -> & ->). simpl in Hmain.
  match type of Hmain with
  | context [executor 100 ?tasks schedule_organizations ?w4] =>
      destruct (executor 100 tasks schedule_organizations w4)
        as [[[results_o w5] log_o]|] eqn:Ho; [|done]
  end.
  apply executor_no_tasks in Ho as (-> & -> & ->). simpl in Hmain.
  simplify_eq. by rewrite app_nil_r.
Qed.

End MainMore.

(** * More concrete runs *)

Example tokens_with_an_empty_value_do_not_load :
  load_access_tokens (<[ "token_2" := EmptyString ]> {[ "token_1" := "abc" ]})
  = inl ValueError /\
  load_access_tokens Sim.both_tokens = inr ("abc", "def").
Proof. vm_compute. done. Qed.


Example waits_of_c_are_thirty_one_then_zero :
  filter (fun e => is_sleep e = true)
         (Sim.scrape Sim.api_search ["c"] "T" 2 100%Q).2
  = [EvSleep (quota_wait 130 100); EvSleep (quota_wait 130 131)].
Proof. vm_compute. reflexivity. Qed.

(** The server of [Sim.api_hub] always reports quota left: the run from
    clock 0 and the run from clock 5000 are the same. *)
Lemma runs_on_api_hub_from_two_clocks :
  (Sim.scrape Sim.api_hub ["front-end"; "back-end"] "T" 2 0%Q).1.1
  = (Sim.scrape Sim.api_hub ["front-end"; "back-end"] "T" 2 5000%Q).1.1 /\
  (Sim.scrape Sim.api_hub ["front-end"; "back-end"] "T" 2 0%Q).2
  = (Sim.scrape Sim.api_hub ["front-end"; "back-end"] "T" 2 5000%Q).2.
Proof.
  assert (Hquota : forall rq r,
             Sim.api_hub rq = Reply r ->
             exists z, x_ratelimit_remaining (headers r) = Numeric z /\ z <> 0).
  { intros rq r. unfold Sim.api_hub, Sim.api_users, Sim.ok_page.
    repeat case_match; intros ?; simplify_eq; by exists 25. }
  destruct (stateless_run_ignores_the_world
              (Sim.requests_get Sim.api_hub) Sim.time_time Sim.time_sleep
              Sim.api_hub (fun rq w => eq_refl) Hquota
              ["front-end"; "back-end"] "T" 2 0%Q 5000%Q) as (Hres & Hevs & _).
  split; [exact Hres|exact Hevs].
Defined.

(** A null description is written as null, seven stars as seven. *)
Lemma null_description_is_copied :
  let row := hd [] (Sim.rows_of [JObj Sim.null_description_record]) in
  repository_record (JObj Sim.null_description_record) = inr row /\
  row.*1 = repository_columns /\
  dict_lookup row "Description" = Some JNull /\
  dict_lookup row "Stars Count" = Some (JInt 7).
Proof.
  assert (Hrow : repository_record (JObj Sim.null_description_record)
                 = inr (hd [] (Sim.rows_of [JObj Sim.null_description_record])))
    by reflexivity.
  destruct (repository_row_copies_present_values
              Sim.null_description_record _ Hrow) as [Hcols Hcopy].
  split; [exact Hrow|]. split; [exact Hcols|]. split.
  - exact (Forall_lookup_1 _ _ 1%nat ("Description", "description")
             Hcopy eq_refl JNull eq_refl).
  - exact (Forall_lookup_1 _ _ 6%nat ("Stars Count", "stargazers_count")
             Hcopy eq_refl (JInt 7) eq_refl).
Defined.

Example owners_of_the_frame :
  analyze_users_and_organizations Sim.read_owners "repositories_data.csv" 0%Q
  = (["alice"], ["acme"]).
Proof. vm_compute. reflexivity. Qed.


(** A whole run with a table: eleven search requests, then one request
    for the user and one for the organization of the table. *)
Lemma main_with_table_searches_then_fetches :
  load_access_tokens Sim.both_tokens = inr ("abc", "def") /\
  let '(res, w1, evs1) := Sim.scrape Sim.api_hub search_queries "abc" 10 0%Q in
  exists evs2,
    Sim.main_with_table.2 = evs1 ++ evs2 /\
    (length (gets evs1) <= 100)%nat /\
    Forall (fun rq => url rq <> search_url) (gets evs2).*1.
Proof.
  assert (Hload : load_access_tokens Sim.both_tokens = inr ("abc", "def")).
  { vm_compute. reflexivity. }
  assert (Hmain : main (Sim.requests_get Sim.api_hub) Sim.time_time Sim.time_sleep
                    Sim.to_csv Sim.read_owners Sim.pandas_strict Sim.both_tokens
                    (sequential 1) (sequential 1) 0%Q
                  = Some (Sim.main_with_table.1, Sim.main_with_table.2)).
  { vm_compute. reflexivity. }
  split; [exact Hload|].
  pose proof (main_searches_then_fetches_details
                (Sim.requests_get Sim.api_hub) Sim.time_time Sim.time_sleep
                Sim.to_csv Sim.read_owners Sim.pandas_strict Sim.both_tokens
                (sequential 1) (sequential 1) 0%Q _ _ "abc" "def" Hload Hmain) as H.
  unfold Sim.scrape.
  destruct (scrape_github_repositories (Sim.requests_get Sim.api_hub)
              Sim.time_time Sim.time_sleep search_queries "abc" 10 0%Q)
    as [[res w1] evs1].
  destruct H as (evs2 & Heq & Hlen & _ & Hdetail & _).
  exists evs2. split; [exact Heq|]. split; [exact Hlen|].
  eapply Forall_impl; [exact Hdetail|]. intros rq (_ & Hne & _). exact Hne.
Defined.

Example main_with_table_requests :
  length (gets Sim.main_with_table.2) = 13%nat /\
  (drop 11 (gets Sim.main_with_table.2)).*1
  = [detail_request "alice" "abc"; detail_request "acme" "def"].
Proof. vm_compute. done. Qed.

(** A whole run without a table: the search requests and nothing else. *)
Lemma main_without_table_only_searches :
  Sim.main_without_table.2
  = (Sim.scrape Sim.api_hub search_queries "abc" 10 0%Q).2.
Proof.
  assert (Hload : load_access_tokens Sim.both_tokens = inr ("abc", "def")).
  { vm_compute. reflexivity. }
  assert (Hmain : Sim.run_main Sim.api_hub Sim.both_tokens [] [] 0%Q
                  = Some (Sim.main_without_table.1, Sim.main_without_table.2)).
  { vm_compute. reflexivity. }
  assert (Hscrape : scrape_github_repositories (Sim.requests_get Sim.api_hub)
                      Sim.time_time Sim.time_sleep search_queries "abc" 10 0%Q
                    = (inr [Sim.repo "site"], 0%Q,
                       (Sim.scrape Sim.api_hub search_queries "abc" 10 0%Q).2)).
  { vm_compute. reflexivity. }
  destruct (main_without_table_fetches_no_details
              (Sim.requests_get Sim.api_hub) Sim.time_time Sim.time_sleep
              Sim.to_csv Sim.pd_read_csv Sim.pandas_strict
              Sim.both_tokens [] [] 0%Q _ _ "abc" "def"
              [Sim.repo "site"] 0%Q _ FileNotFoundError
              Hload Hscrape eq_refl Hmain) as [Hevs _].
  exact Hevs.
Defined.


(** A body that is a list ends the run at its request: the queries after
    "list" are never asked. *)
Example body_that_is_a_list_ends_the_run :
  let '(res, _, evs) := Sim.scrape Sim.api_faulty ["b"; "list"; "a"] "T" 2 100%Q in
  res = inl AttributeError /\
  (gets evs).*1 = first_pages "T" "b" 2 ++ first_pages "T" "list" 1.
Proof. vm_compute. done. Qed.

(** A null among the numbers of a column: a strict pandas writes no
    table, an earlier one writes it with 'N/A' in place of the null. *)
Example null_among_numbers_voids_the_details_table :
  save_users_data_to_csv Sim.files_to_csv true Sim.two_users "users_data.csv" []
  = [] /\
  save_users_data_to_csv Sim.files_to_csv false Sim.two_users "users_data.csv" []
  = [("users_data.csv", fillna Sim.two_users)] /\
  map (fun record => dict_lookup record "Followers") (fillna Sim.two_users)
  = [Some (JInt 3); Some NA].
Proof. vm_compute. done. Qed.
